(** * JWS envelope (package jws): verification, splitting and parsing

    A shallow embedding of the Go package [jws] (file jws.go and
    option.go): the compact splitter and its streaming variant, the
    compact and JSON verification procedures, the key-set driver, the
    compact parser and the key-type/algorithm registry.

    Go values are modelled as follows.
    - [[]byte] is [list byte]; a possibly-nil slice whose nil-ness the code
      tests ([detachedPayload != nil]) is [option (list byte)].
    - Go [string] (header names, key ids, algorithm names) is [string].
    - Go [int] is [Z].
    - [(T, error)] results are [Result T]; every error site of the source
      has its own constructor of [Error], and [message] gives the text the
      source attaches to it.
    - Collaborators that live outside the package (base64, JSON, the
      verifier factory, [bytes.TrimSpace]) are the fields of the class
      [Collaborators]; every general theorem holds for all instances, and
      module [Ref] gives one to run the package on concrete messages. *)

From Stdlib Require Import ZArith List Bool Lia.
From Stdlib Require Import Strings.String Strings.Ascii Strings.Byte.
From stdpp Require Import base option list strings gmap.

Open Scope Z_scope.

(** ** Bytes *)

Abbreviation bytes := (list byte).

#[global] Instance byte_eq_decision : EqDecision byte := byte_eq_dec.

(** A byte-slice literal, [[]byte("...")]. *)
Definition B (s : string) : bytes := list_byte_of_string s.

(** Go's [len] on a slice. *)
Definition len {A} (l : list A) : Z := Z.of_nat (length l).

(** ** Errors *)

Inductive Error :=
| EmptyInput              (* Verify: buffer empty after trimming *)
| InvalidInput            (* Parse: no non-space rune *)
| MalformedSegments       (* SplitCompact*, SplitCompactReader *)
| ReadFailed              (* SplitCompactReader: read error other than EOF *)
| UnsupportedAlgorithm    (* NewVerifier failed *)
| UnmarshalFailed         (* verifyJSON / parseJSON: json.Unmarshal failed *)
| AmbiguousPayload        (* verifyJSON: embedded and detached payload *)
| MarshalProtectedFailed  (* verifyJSON: json.Marshal(sig.protected) failed *)
| NoValidSignature        (* verifyJSON: no signature verified *)
| SignatureDecodeFailed   (* verifyCompact / parse: signature segment *)
| HeaderDecodeFailed      (* verifyCompact: protected segment or its JSON *)
| KeyIDMismatch           (* verifyCompact: kid fields differ *)
| VerificationFailed      (* verifyCompact: verifier rejected *)
| PayloadDecodeFailed     (* verifyCompact: verified, payload not base64 *)
| NoKeyVerified           (* VerifySet: set exhausted *)
| ProtectedDecodeFailed   (* parse: protected segment not base64 *)
| HeaderParseFailed       (* parse: protected JSON does not unmarshal *)
| PayloadSegmentDecodeFailed (* parse: payload segment not base64 *)
| UnsupportedKey          (* AlgorithmsForKey: key of unknown shape *)
| UnsupportedKeyType.     (* AlgorithmsForKey: key type not registered *)

(** The text the source gives each error (the outermost message when the
    source wraps a cause). *)
Definition message (e : Error) : string :=
  match e with
  | EmptyInput => "attempt to verify empty buffer"
  | InvalidInput => "invalid byte sequence"
  | MalformedSegments => "invalid number of segments"
  | ReadFailed => "unexpected end of input"
  | UnsupportedAlgorithm => "failed to create verifier"
  | UnmarshalFailed => "failed to unmarshal JSON message"
  | AmbiguousPayload => "can't specify detached payload for JWS with payload"
  | MarshalProtectedFailed => "failed to marshal protected"
  | NoValidSignature => "could not verify with any of the signatures"
  | SignatureDecodeFailed => "failed to decode signature"
  | HeaderDecodeFailed => "failed to decode headers"
  | KeyIDMismatch => "kid fields do not match"
  | VerificationFailed => "failed to verify message"
  | PayloadDecodeFailed => "message verified, failed to decode payload"
  | NoKeyVerified =>
      "failed to verify message with any of the keys in the jwk.Set object"
  | ProtectedDecodeFailed => "failed to decode protected headers"
  | HeaderParseFailed => "failed to parse JOSE headers"
  | PayloadSegmentDecodeFailed => "failed to decode payload"
  | UnsupportedKey => "invalid key"
  | UnsupportedKeyType => "invalid key type"
  end.

Inductive Result (A : Type) :=
| Ok (a : A)
| Err (e : Error).
Arguments Ok {A} a.
Arguments Err {A} e.

Definition is_ok {A} (r : Result A) : bool :=
  match r with Ok _ => true | Err _ => false end.

(** ** Splitting the compact form *)

Module Split.

(** [bytes.Split(s, []byte{sep})]: the segments between separators; always
    one more segment than there are separators. *)
Fixpoint Split (s : bytes) (sep : byte) : list bytes :=
  match s with
  | [] => [[]]
  | c :: r =>
      if decide (c = sep) then [] :: Split r sep
      else match Split r sep with
           | h :: t => (c :: h) :: t
           | [] => [[c]]
           end
  end.

(** [bytes.Count(s, []byte{sep})]. *)
Fixpoint Count (s : bytes) (sep : byte) : nat :=
  match s with
  | [] => O
  | c :: r => if decide (c = sep) then S (Count r sep) else Count r sep
  end.

(** [bytes.IndexByte]: index of the first [c], or -1. *)
Fixpoint IndexByte (s : bytes) (c : byte) : Z :=
  match s with
  | [] => -1
  | x :: r =>
      if decide (x = c) then 0
      else let i := IndexByte r c in if i =? -1 then -1 else i + 1
  end.

(** [s[:i]] and [s[i:]] for [0 <= i <= len s]. *)
Definition slice_to (s : bytes) (i : Z) : bytes := take (Z.to_nat i) s.
Definition slice_from (s : bytes) (i : Z) : bytes := drop (Z.to_nat i) s.

Definition dot : byte := "."%byte.

(** [SplitCompact]. *)
Definition SplitCompact (src : bytes) : Result (bytes * bytes * bytes) :=
  let parts := Split src dot in
  if len parts <? 3 then Err MalformedSegments
  else Ok (nth 0 parts [], nth 1 parts [], nth 2 parts []).

(** What a call to [rdr.Read] reports besides the bytes. *)
Inductive ReadErr :=
| EOF           (* io.EOF *)
| ErrOther.     (* any other error *)

(** A reader. [InMemory] stands for the three concrete types [readAll]
    recognises ([*bytes.Reader], [*bytes.Buffer], [*strings.Reader]), whose
    reads never fail. [Stream] is any other reader, given by what its
    successive [Read] calls return; once the script is used up, [Read]
    returns [0, io.EOF]. *)
Inductive Reader :=
| InMemory (data : bytes)
| Stream (reads : list (bytes * option ReadErr)).

(** [readAll]. *)
Definition readAll (rdr : Reader) : option bytes :=
  match rdr with
  | InMemory data => Some data
  | Stream _ => None
  end.

(** The local variables of [SplitCompactReader]. *)
Record splitState := {
  protected : bytes;
  payload : bytes;
  signature : bytes;
  periods : Z;
  state : Z;
  sofar : bytes
}.

Definition splitState0 : splitState :=
  {| protected := []; payload := []; signature := [];
     periods := 0; state := 0; sofar := [] |}.

(** The [switch state] of the inner loop, followed by the shortening of
    [sofar]. *)
Definition capture (i : Z) (periods' : Z) (st : splitState) : splitState :=
  let s := sofar st in
  let seg := slice_to s i in
  let s' := if len s >? i then slice_from s (i + 1) else s in
  if state st =? 0 then
    {| protected := seg; payload := payload st; signature := signature st;
       periods := periods'; state := state st + 1; sofar := s' |}
  else if state st =? 1 then
    {| protected := protected st; payload := seg; signature := signature st;
       periods := periods'; state := state st + 1; sofar := s' |}
  else if state st =? 2 then
    {| protected := protected st; payload := payload st; signature := seg;
       periods := periods'; state := state st; sofar := s' |}
  else
    {| protected := protected st; payload := payload st;
       signature := signature st;
       periods := periods'; state := state st; sofar := s' |}.

(** The inner loop [for loop := true; loop; ...]. Each further iteration
    follows a found '.', after which [sofar] is strictly shorter, so
    [S (length sofar)] iterations always suffice; [fuel] counts them. *)
Fixpoint scanLoop (fuel : nat) (eof : bool) (st : splitState) : splitState :=
  match fuel with
  | O => st
  | S fuel' =>
      let i := IndexByte (sofar st) dot in
      if (i =? -1) && negb eof then st
      else if (i =? -1) && eof then capture (len (sofar st)) (periods st) st
      else scanLoop fuel' eof (capture i (periods st + 1) st)
  end.

Definition scan (eof : bool) (st : splitState) : splitState :=
  scanLoop (S (length (sofar st))) eof st.

(** [sofar = append(sofar, buf[:n]...)]. *)
Definition appendChunk (chunk : bytes) (st : splitState) : splitState :=
  {| protected := protected st; payload := payload st;
     signature := signature st; periods := periods st; state := state st;
     sofar := sofar st ++ chunk |}.

(** The outer loop: one iteration per [Read]. *)
Fixpoint readLoop (reads : list (bytes * option ReadErr)) (st : splitState)
  : Result splitState :=
  match reads with
  | [] => Ok (scan true st)
  | (chunk, None) :: rest => readLoop rest (scan false (appendChunk chunk st))
  | (chunk, Some EOF) :: _ => Ok (scan true (appendChunk chunk st))
  | (_, Some ErrOther) :: _ => Err ReadFailed
  end.

(** The reads the streaming loop sees. An in-memory reader never gets
    here ([readAll] succeeds on it); as a stream it would hand out its data
    in one read. *)
Definition readsOf (rdr : Reader) : list (bytes * option ReadErr) :=
  match rdr with
  | InMemory data => [(data, None)]
  | Stream reads => reads
  end.

(** [SplitCompactReader]. *)
Definition SplitCompactReader (rdr : Reader) : Result (bytes * bytes * bytes) :=
  match readAll rdr with
  | Some data => SplitCompact data
  | None =>
      match readLoop (readsOf rdr) splitState0 with
      | Err e => Err e
      | Ok st =>
          if negb (periods st =? 2) then Err MalformedSegments
          else Ok (protected st, payload st, signature st)
      end
  end.

(** [buf] cut into chunks of [k] bytes, the last one possibly shorter;
    [fuel] bounds the number of chunks. *)
Fixpoint chunksOf (fuel : nat) (k : nat) (buf : bytes) : list bytes :=
  match fuel with
  | O => []
  | S fuel' =>
      match buf with
      | [] => []
      | _ => take k buf :: chunksOf fuel' k (drop k buf)
      end
  end.

(** A reader over [buf] that hands out [k] bytes per [Read] and reports
    end of input on a further, empty read. *)
Definition reader_over (k : nat) (buf : bytes) : Reader :=
  Stream (map (fun c => (c, None)) (chunksOf (length buf) k buf)).

(** The bytes a script of reads delivers up to end of input, when no read
    fails. *)
Fixpoint delivered (reads : list (bytes * option ReadErr)) : option bytes :=
  match reads with
  | [] => Some []
  | (chunk, None) :: rest =>
      match delivered rest with
      | Some d => Some (chunk ++ d)
      | None => None
      end
  | (chunk, Some EOF) :: _ => Some chunk
  | (_, Some ErrOther) :: _ => None
  end.

(** The whole content of a reader. *)
Definition content (rdr : Reader) : option bytes :=
  match rdr with
  | InMemory data => Some data
  | Stream reads => delivered reads
  end.

(** *** Auxiliary definitions for reasoning about the streaming loop *)

(** The effect of the [switch state] on the three result slots. *)
Definition commit (seg : bytes) (st : splitState) : splitState :=
  if state st =? 0 then
    {| protected := seg; payload := payload st; signature := signature st;
       periods := periods st; state := state st + 1; sofar := sofar st |}
  else if state st =? 1 then
    {| protected := protected st; payload := seg; signature := signature st;
       periods := periods st; state := state st + 1; sofar := sofar st |}
  else if state st =? 2 then
    {| protected := protected st; payload := payload st; signature := seg;
       periods := periods st; state := state st; sofar := sofar st |}
  else st.

Definition bump (st : splitState) : splitState :=
  {| protected := protected st; payload := payload st;
     signature := signature st; periods := periods st + 1;
     state := state st; sofar := sofar st |}.

Definition setSofar (s : bytes) (st : splitState) : splitState :=
  {| protected := protected st; payload := payload st;
     signature := signature st; periods := periods st;
     state := state st; sofar := s |}.

(** Everything of the state but the rolling buffer. *)
Definition slots (st : splitState) : bytes * bytes * bytes * Z * Z :=
  (protected st, payload st, signature st, periods st, state st).

(** The state after the segments [segs] of the buffer have been seen: every
    segment but the last is closed by a '.', the last one is captured only
    at end of input. *)
Fixpoint feedSegs (eof : bool) (segs : list bytes) (st : splitState)
  : splitState :=
  match segs with
  | [] => st
  | seg :: rest =>
      match rest with
      | [] => if eof then setSofar seg (commit seg st) else setSofar seg st
      | _ :: _ => feedSegs eof rest (bump (commit seg st))
      end
  end.

Definition closeSeg (st : splitState) (seg : bytes) : splitState :=
  bump (commit seg st).

(** [bytes.Join(segs, []byte{c})]. *)
Fixpoint Join (segs : list bytes) (c : byte) : bytes :=
  match segs with
  | [] => []
  | [seg] => seg
  | seg :: rest => seg ++ c :: Join rest c
  end.

End Split.

(** ** Data model *)

(** A header value: Go's [interface{}] as JSON decoding fills it. *)
Inductive Value :=
| VString (s : string)
| VBool (b : bool)
| VNumber (n : Z)
| VNull.

(** Modelled from the spec: the [Headers] implementation is generated code
    that is not part of the sources at hand. Section 3 of the specification
    makes it a mapping from field name to dynamically typed value; the
    code uses [hdr.Get(name)] and [hdr.KeyID()] only, the latter being the
    string in field [kid], empty when the field is absent. *)
Abbreviation Headers := (gmap string Value).

Definition Get (hdr : Headers) (name : string) : option Value := hdr !! name.

Definition KeyID (hdr : Headers) : string :=
  match hdr !! "kid"%string with
  | Some (VString s) => s
  | _ => ""%string
  end.

(** A structured key object ([jwk.Key]): the four accessors the package
    calls, and the key material, which only verifiers look at. *)
Record JwkKey := {
  jwk_KeyID : string;
  jwk_Algorithm : string;
  jwk_KeyUsage : string;
  jwk_KeyType : string;
  jwk_material : bytes
}.

(** The concrete types a raw key may have, as far as the type switch of
    [AlgorithmsForKey] tells them apart. *)
Inductive RawKind :=
| RsaPublicKey | RsaPublicKeyPtr | RsaPrivateKey | RsaPrivateKeyPtr
| EcdsaPublicKey | EcdsaPublicKeyPtr | EcdsaPrivateKey | EcdsaPrivateKeyPtr
| Ed25519PublicKey | Ed25519PrivateKey | X25519PublicKey | X25519PrivateKey
| ByteSlice
| OtherKind.

(** The [key interface{}] argument. *)
Inductive Key :=
| JwkK (k : JwkKey)
| RawK (kind : RawKind) (material : bytes).

(** [jwk.Set]: an indexable collection; [Len] is [set.Len()] and
    [KeyAt set i] is [set.Get(i)], [None] when it reports not ok. *)
Record KeySet := {
  Len : nat;
  KeyAt : nat -> option JwkKey
}.

Definition setOfList (keys : list JwkKey) : KeySet :=
  {| Len := length keys; KeyAt := fun i => keys !! i |}.

Record Signature := {
  sig_headers : option Headers;
  sig_protected : option Headers;
  sig_signature : bytes
}.

Record Message := {
  msg_payload : bytes;
  msg_signatures : list Signature;
  msg_b64 : bool
}.

(** A verifier: [Verify(payload, signature, key)] returning no error. *)
Definition Verifier := bytes -> bytes -> Key -> bool.

(** The collaborators of the package: base64, JSON, the verifier factory
    and the standard library functions whose result depends on Unicode
    tables. *)
Class Collaborators := {
  base64_Decode : bytes -> option bytes;
  base64_EncodeToString : bytes -> bytes;
  json_UnmarshalHeaders : bytes -> option Headers;
  json_UnmarshalMessage : bytes -> option Message;
  json_MarshalHeaders : option Headers -> option bytes;
  NewVerifier : string -> option Verifier;
  bytes_TrimSpace : bytes -> bytes;
  utf8_DecodeRune : bytes -> Z;
  unicode_IsSpace : Z -> bool
}.

(** ** The error monad *)

#[global] Instance result_bind : MBind Result :=
  fun A C (k : A -> Result C) (r : Result A) =>
    match r with
    | Ok a => k a
    | Err e => Err e
    end.

(** [v, err := f(); if err != nil { return nil, errors.Wrap(err, msg) }]. *)
Definition orErr {A} (o : option A) (e : Error) : Result A :=
  match o with
  | Some a => Ok a
  | None => Err e
  end.

(** ** Verification and parsing *)

Module Jws.
Import Split.

Section WithCollaborators.
Context `{Collaborators}.

(** [getB64Value]. *)
Definition getB64Value (hdr : Headers) : bool :=
  match Get hdr "b64" with
  | None => true
  | Some b64raw =>
      match b64raw with
      | VBool b64 => b64
      | _ => false
      end
  end.

(** The message [verifyCompact] builds for its sink. *)
Definition compactMessage (decodedPayload : bytes) (hdr : Headers)
           (decodedSignature : bytes) : Message :=
  {| msg_payload := decodedPayload;
     msg_signatures := [ {| sig_headers := None; sig_protected := Some hdr;
                            sig_signature := decodedSignature |} ];
     msg_b64 := false |}.

(** [verifyCompact], up to the store through [dst]: the payload and the
    message the sink receives. *)
Definition verifyCompactCore (signed : bytes) (alg : string) (key : Key)
           (detachedPayload : option bytes) : Result (bytes * Message) :=
  '(protected, payload, signature) ← SplitCompact signed;
  verifier ← orErr (NewVerifier alg) UnsupportedAlgorithm;
  let payload :=
    match detachedPayload with
    | Some detached => if len payload =? 0 then detached else payload
    | None => payload
    end in
  let verifyBuf := protected ++ dot :: payload in
  decodedSignature ← orErr (base64_Decode signature) SignatureDecodeFailed;
  decodedProtected ← orErr (base64_Decode protected) HeaderDecodeFailed;
  hdr ← orErr (json_UnmarshalHeaders decodedProtected) HeaderDecodeFailed;
  _ ← (if negb (String.eqb (KeyID hdr) "") then
          match key with
          | JwkK jwkKey =>
              if negb (String.eqb (jwk_KeyID jwkKey) (KeyID hdr))
              then Err KeyIDMismatch else Ok tt
          | RawK _ _ => Ok tt
          end
        else Ok tt);
  _ ← (if (verifier : Verifier) verifyBuf decodedSignature key
        then Ok tt else Err VerificationFailed);
  (* [payload] is a segment of the non-empty input or the detached
     payload, never nil: [decodedPayload] is nil exactly when b64 holds *)
  let decodedPayload : option bytes :=
    if negb (getB64Value hdr) then Some payload else None in
  decodedPayload ←
    match decodedPayload with
    | Some v => Ok v
    | None => orErr (base64_Decode payload) PayloadDecodeFailed
    end;
  Ok (decodedPayload, compactMessage decodedPayload hdr decodedSignature).

(** Storing through [dst] when it is not nil. The second component is the
    content of the sink after the call. *)
Definition store (dst : option Message) (r : Result (bytes * Message))
  : Result bytes * option Message :=
  match r with
  | Ok (payload, m) =>
      (Ok payload, match dst with Some _ => Some m | None => None end)
  | Err e => (Err e, dst)
  end.

Definition verifyCompact (signed : bytes) (alg : string) (key : Key)
           (dst : option Message) (detachedPayload : option bytes)
  : Result bytes * option Message :=
  store dst (verifyCompactCore signed alg key detachedPayload).

(** The loop of [verifyJSON] over the signatures of [m]. *)
Fixpoint verifySignatures (verifier : Verifier) (payload : bytes) (key : Key)
         (m : Message) (sigs : list Signature) : Result (bytes * Message) :=
  match sigs with
  | [] => Err NoValidSignature
  | sig :: rest =>
      let skip :=
        match sig_headers sig with
        | Some hdr =>
            if negb (String.eqb (KeyID hdr) "") then
              match key with
              | JwkK jwkKey => negb (String.eqb (jwk_KeyID jwkKey) (KeyID hdr))
              | RawK _ _ => false
              end
            else false
        | None => false
        end in
      if skip then verifySignatures verifier payload key m rest
      else
        protected ← orErr (json_MarshalHeaders (sig_protected sig))
                           MarshalProtectedFailed;
        if verifier (base64_EncodeToString protected ++ dot :: payload)
                    (sig_signature sig) key
        then Ok (msg_payload m, m)
        else verifySignatures verifier payload key m rest
  end.

(** [verifyJSON], up to the store through [dst]. *)
Definition verifyJSONCore (signed : bytes) (alg : string) (key : Key)
           (detachedPayload : option bytes) : Result (bytes * Message) :=
  verifier ← orErr (NewVerifier alg) UnsupportedAlgorithm;
  m ← orErr (json_UnmarshalMessage signed) UnmarshalFailed;
  if negb (len (msg_payload m) =? 0) && bool_decide (is_Some detachedPayload)
  then Err AmbiguousPayload
  else
    let m :=
      match detachedPayload with
      | Some detached =>
          {| msg_payload := detached; msg_signatures := msg_signatures m;
             msg_b64 := msg_b64 m |}
      | None => m
      end in
    let payload :=
      if msg_b64 m then base64_EncodeToString (msg_payload m)
      else msg_payload m in
    verifySignatures verifier payload key m (msg_signatures m).

Definition verifyJSON (signed : bytes) (alg : string) (key : Key)
           (dst : option Message) (detachedPayload : option bytes)
  : Result bytes * option Message :=
  store dst (verifyJSONCore signed alg key detachedPayload).

Definition lbrace : byte := "{"%byte.

(** [Verify]; [dst] and [detachedPayload] are what the options carry. *)
Definition Verify (buf : bytes) (alg : string) (key : Key)
           (dst : option Message) (detachedPayload : option bytes)
  : Result bytes * option Message :=
  let buf := bytes_TrimSpace buf in
  if len buf =? 0 then (Err EmptyInput, dst)
  else if bool_decide (head buf = Some lbrace)
       then verifyJSON buf alg key dst detachedPayload
       else verifyCompact buf alg key dst detachedPayload.

(** [jwk.ForSignature.String()]. *)
Definition ForSignature : string := "sig".

(** The loop of [VerifySet]: [i] is the loop index and [todo] the number
    of iterations left, [n - i]. *)
Fixpoint VerifySetFrom (buf : bytes) (set : KeySet) (i : nat) (todo : nat)
  : Result bytes :=
  match todo with
  | O => Err NoKeyVerified
  | S todo' =>
      match KeyAt set i with
      | None => VerifySetFrom buf set (S i) todo'
      | Some key =>
          if String.eqb (jwk_Algorithm key) "" then
            VerifySetFrom buf set (S i) todo'
          else if negb (String.eqb (jwk_KeyUsage key) "")
                  && negb (String.eqb (jwk_KeyUsage key) ForSignature) then
            VerifySetFrom buf set (S i) todo'
          else
            match fst (Verify buf (jwk_Algorithm key) (JwkK key) None None) with
            | Err _ => VerifySetFrom buf set (S i) todo'
            | Ok buf' => Ok buf'
            end
      end
  end.

(** [VerifySet]. *)
Definition VerifySet (buf : bytes) (set : KeySet) : Result bytes :=
  VerifySetFrom buf set 0 (Len set).

(** [parse]. *)
Definition parse (protected payload signature : bytes) : Result Message :=
  decodedHeader ← orErr (base64_Decode protected) ProtectedDecodeFailed;
  hdr ← orErr (json_UnmarshalHeaders decodedHeader) HeaderParseFailed;
  decodedPayload ← orErr (base64_Decode payload) PayloadSegmentDecodeFailed;
  decodedSignature ← orErr (base64_Decode signature) SignatureDecodeFailed;
  Ok {| msg_payload := decodedPayload;
        msg_signatures := [ {| sig_headers := None; sig_protected := Some hdr;
                               sig_signature := decodedSignature |} ];
        msg_b64 := false |}.

(** [parseCompact]. *)
Definition parseCompact (data : bytes) : Result Message :=
  '(protected, payload, signature) ← SplitCompact data;
  parse protected payload signature.

(** [parseCompactReader]. *)
Definition parseCompactReader (rdr : Reader) : Result Message :=
  '(protected, payload, signature) ← SplitCompactReader rdr;
  parse protected payload signature.

(** [parseJSON]. *)
Definition parseJSON (data : bytes) : Result Message :=
  orErr (json_UnmarshalMessage data) UnmarshalFailed.

(** The loop of [Parse]: [rest] is [src[i:]]. A byte at or above
    [utf8.RuneSelf] makes the code decode a rune from the start of [src]. *)
Fixpoint ParseFrom (src rest : bytes) : Result Message :=
  match rest with
  | [] => Err InvalidInput
  | b :: rest' =>
      let r := Z.of_N (Byte.to_N b) in
      let r := if r >=? 128 then utf8_DecodeRune src else r in
      if negb (unicode_IsSpace r) then
        if r =? 123 then parseJSON src else parseCompact src
      else ParseFrom src rest'
  end.

(** [Parse]. *)
Definition Parse (src : bytes) : Result Message := ParseFrom src src.

(** *** Auxiliary definitions for the statements *)

(** The payload the compact path works on: the segment, or the detached
    payload when the segment is empty. *)
Definition effectivePayload (pl : bytes) (detached : option bytes) : bytes :=
  match detached with
  | Some d => if len pl =? 0 then d else pl
  | None => pl
  end.

(** The key-id test of the compact path. *)
Definition kidMismatch (hdr : Headers) (key : Key) : bool :=
  negb (String.eqb (KeyID hdr) "")
  && match key with
     | JwkK k => negb (String.eqb (jwk_KeyID k) (KeyID hdr))
     | RawK _ _ => false
     end.

(** The rune [Parse] decides on: the first one its loop does not take for
    white space. *)
Fixpoint firstRuneFrom (src rest : bytes) : option Z :=
  match rest with
  | [] => None
  | b :: rest' =>
      let r := Z.of_N (Byte.to_N b) in
      let r := if r >=? 128 then utf8_DecodeRune src else r in
      if negb (unicode_IsSpace r) then Some r else firstRuneFrom src rest'
  end.

Definition firstRune (src : bytes) : option Z := firstRuneFrom src src.

(** The key-set driver in the words of the specification: the keys of the
    collection in order, without those that declare no algorithm or a usage
    other than signature use; the payload of the first one that verifies. *)
Definition eligible (key : JwkKey) : bool :=
  negb (String.eqb (jwk_Algorithm key) "")
  && (String.eqb (jwk_KeyUsage key) "" || String.eqb (jwk_KeyUsage key) "sig").

Definition keysInOrder (set : KeySet) : list JwkKey :=
  omap (KeyAt set) (seq 0 (Len set)).

Fixpoint firstVerified (buf : bytes) (keys : list JwkKey) : option bytes :=
  match keys with
  | [] => None
  | key :: rest =>
      match fst (Verify buf (jwk_Algorithm key) (JwkK key) None None) with
      | Ok payload => Some payload
      | Err _ => firstVerified buf rest
      end
  end.

Definition VerifySet_spec (buf : bytes) (set : KeySet) : Result bytes :=
  match firstVerified buf (filter (fun k => eligible k = true)
                                  (keysInOrder set)) with
  | Some payload => Ok payload
  | None => Err NoKeyVerified
  end.

End WithCollaborators.

(** *** The key-type/algorithm registry *)

(** Modelled from the spec: package [jwa] is not part of the sources at
    hand; its key types and signature algorithms are strings, with the
    registered names of RFC 7518. *)
Definition EC : string := "EC".
Definition OKP : string := "OKP".
Definition OctetSeq : string := "oct".
Definition RSA : string := "RSA".

Definition ES256 : string := "ES256".
Definition ES384 : string := "ES384".
Definition ES512 : string := "ES512".
Definition EdDSA : string := "EdDSA".
Definition HS256 : string := "HS256".
Definition HS384 : string := "HS384".
Definition HS512 : string := "HS512".
Definition PS256 : string := "PS256".
Definition PS384 : string := "PS384".
Definition PS512 : string := "PS512".
Definition RS256 : string := "RS256".
Definition RS384 : string := "RS384".
Definition RS512 : string := "RS512".

(** [addAlgorithmForKeyType], on the map it updates. *)
Definition addAlgorithmForKeyType (kty alg : string)
           (m : gmap string (list string)) : gmap string (list string) :=
  <[kty := default [] (m !! kty) ++ [alg]]> m.

(** [for _, alg := range algs { addAlgorithmForKeyType(kty, alg) }]. *)
Definition addAll (kty : string) (algs : list string)
           (m : gmap string (list string)) : gmap string (list string) :=
  fold_left (fun m alg => addAlgorithmForKeyType kty alg m) algs m.

(** [keyTypeToAlgorithms] after [init]. *)
Definition keyTypeToAlgorithms : gmap string (list string) :=
  addAll EC [ES256; ES384; ES512]
    (addAll RSA [PS256; PS384; PS512; RS256; RS384; RS512]
       (addAll OctetSeq [HS256; HS384; HS512]
          (addAlgorithmForKeyType OKP EdDSA ∅))).

(** The type switch of [AlgorithmsForKey]. *)
Definition keyTypeOf (key : Key) : option string :=
  match key with
  | JwkK k => Some (jwk_KeyType k)
  | RawK RsaPublicKey _ | RawK RsaPublicKeyPtr _
  | RawK RsaPrivateKey _ | RawK RsaPrivateKeyPtr _ => Some RSA
  | RawK EcdsaPublicKey _ | RawK EcdsaPublicKeyPtr _
  | RawK EcdsaPrivateKey _ | RawK EcdsaPrivateKeyPtr _ => Some EC
  | RawK Ed25519PublicKey _ | RawK Ed25519PrivateKey _
  | RawK X25519PublicKey _ | RawK X25519PrivateKey _ => Some OKP
  | RawK ByteSlice _ => Some OctetSeq
  | RawK OtherKind _ => None
  end.

(** [AlgorithmsForKey]. *)
Definition AlgorithmsForKey (key : Key) : Result (list string) :=
  match keyTypeOf key with
  | None => Err UnsupportedKey
  | Some kty =>
      match keyTypeToAlgorithms !! kty with
      | None => Err UnsupportedKeyType
      | Some algs => Ok algs
      end
  end.

End Jws.

(** ** A reference environment

    Concrete collaborators, used to run the package on concrete messages:
    unpadded base64url, a reader of flat JSON objects, flattened JWS JSON
    messages, a checksum in the role of the signature scheme, and the
    ASCII part of the Unicode-aware functions. *)

Module Ref.
Import Split Jws.

Definition code (c : byte) : Z := Z.of_N (Byte.to_N c).

Definition byteOfZ (z : Z) : byte :=
  default x00 (Byte.of_N (Z.to_N (z mod 256))).

(** Modelled from the spec: [internal/base64] is not part of the sources at
    hand; the specification calls its functions base64url encoding and
    decoding, which RFC 4648 section 5 defines; no padding is written or
    accepted. *)
Definition b64val (c : byte) : option Z :=
  let n := code c in
  if (65 <=? n) && (n <=? 90) then Some (n - 65)
  else if (97 <=? n) && (n <=? 122) then Some (n - 71)
  else if (48 <=? n) && (n <=? 57) then Some (n + 4)
  else if n =? 45 then Some 62
  else if n =? 95 then Some 63
  else None.

Fixpoint decode (s : bytes) : option bytes :=
  match s with
  | [] => Some []
  | [_] => None
  | [a; b] =>
      va ← b64val a; vb ← b64val b;
      Some [byteOfZ (va * 4 + vb / 16)]
  | [a; b; c] =>
      va ← b64val a; vb ← b64val b; vc ← b64val c;
      Some [byteOfZ (va * 4 + vb / 16); byteOfZ (vb mod 16 * 16 + vc / 4)]
  | a :: b :: c :: d :: rest =>
      va ← b64val a; vb ← b64val b; vc ← b64val c; vd ← b64val d;
      r ← decode rest;
      Some (byteOfZ (va * 4 + vb / 16)
            :: byteOfZ (vb mod 16 * 16 + vc / 4)
            :: byteOfZ (vc mod 4 * 64 + vd) :: r)
  end.

Definition alphabet : bytes :=
  B "ABCDEFGHIJKLMNOPQRSTUVWXYZabcdefghijklmnopqrstuvwxyz0123456789-_".

Definition b64char (v : Z) : byte := nth (Z.to_nat v) alphabet x00.

Fixpoint encode (s : bytes) : bytes :=
  match s with
  | [] => []
  | [x] => [b64char (code x / 4); b64char (code x mod 4 * 16)]
  | [x; y] =>
      [b64char (code x / 4); b64char (code x mod 4 * 16 + code y / 16);
       b64char (code y mod 16 * 4)]
  | x :: y :: z :: rest =>
      b64char (code x / 4)
      :: b64char (code x mod 4 * 16 + code y / 16)
      :: b64char (code y mod 16 * 4 + code z / 64)
      :: b64char (code z mod 64) :: encode rest
  end.

(** Modelled from the spec: [internal/json] is not part of the sources at
    hand. Headers are decoded from a JSON object (section 3 of the
    specification); this reader knows objects whose members are strings
    without escapes, booleans, null and integers. *)
Definition isWs (c : byte) : bool :=
  bool_decide (code c ∈ [32; 9; 10; 13]).

Fixpoint skipWs (s : bytes) : bytes :=
  match s with
  | c :: r => if isWs c then skipWs r else s
  | [] => []
  end.

Fixpoint stripPrefix (p s : bytes) : option bytes :=
  match p, s with
  | [], _ => Some s
  | c :: p', x :: s' => if decide (c = x) then stripPrefix p' s' else None
  | _ :: _, [] => None
  end.

Definition quote : byte := x22.
Definition backslash : byte := x5c.

(** The rest of a string after its opening quote. *)
Fixpoint strBody (s : bytes) (acc : bytes) : option (bytes * bytes) :=
  match s with
  | [] => None
  | c :: r =>
      if decide (c = quote) then Some (rev acc, r)
      else if decide (c = backslash) then None
      else strBody r (c :: acc)
  end.

Definition isDigit (c : byte) : bool := (48 <=? code c) && (code c <=? 57).

Fixpoint digits (s : bytes) (acc : Z) : Z * bytes :=
  match s with
  | c :: r => if isDigit c then digits r (acc * 10 + (code c - 48)) else (acc, s)
  | [] => (acc, [])
  end.

Definition value (s : bytes) : option (Value * bytes) :=
  match stripPrefix [quote] s with
  | Some r =>
      '(str, rest) ← strBody r [];
      Some (VString (string_of_list_byte str), rest)
  | None =>
  match stripPrefix (B "true") s with
  | Some r => Some (VBool true, r)
  | None =>
  match stripPrefix (B "false") s with
  | Some r => Some (VBool false, r)
  | None =>
  match stripPrefix (B "null") s with
  | Some r => Some (VNull, r)
  | None =>
  match stripPrefix (B "-") s with
  | Some (c :: r) =>
      if isDigit c then let '(n, rest) := digits (c :: r) 0 in
                        Some (VNumber (- n), rest)
      else None
  | Some [] => None
  | None =>
      match s with
      | c :: _ => if isDigit c then let '(n, rest) := digits s 0 in
                                    Some (VNumber n, rest)
                  else None
      | [] => None
      end
  end end end end end.

(** The members of an object after its opening brace, up to and including
    the closing brace; [fuel] bounds the number of members. *)
Fixpoint members (fuel : nat) (s : bytes) (acc : list (string * Value))
  : option (list (string * Value) * bytes) :=
  match fuel with
  | O => None
  | S fuel' =>
      r ← stripPrefix [quote] (skipWs s);
      '(k, r) ← strBody r [];
      r ← stripPrefix (B ":") (skipWs r);
      '(v, r) ← value (skipWs r);
      let acc := (string_of_list_byte k, v) :: acc in
      match stripPrefix (B ",") (skipWs r) with
      | Some r' => members fuel' r' acc
      | None =>
          r' ← stripPrefix (B "}") (skipWs r);
          Some (rev acc, r')
      end
  end.

Definition object (s : bytes) : option (gmap string Value) :=
  r ← stripPrefix (B "{") (skipWs s);
  '(ms, rest) ←
    match stripPrefix (B "}") (skipWs r) with
    | Some r' => Some ([], r')
    | None => members (length s) r []
    end;
  match skipWs rest with
  | [] => Some (fold_left (fun m kv => <[kv.1 := kv.2]> m) ms ∅)
  | _ :: _ => None
  end.

(** Field [kid] is a string when present. *)
Definition unmarshalHeaders (d : bytes) : option Headers :=
  hdr ← object d;
  match hdr !! "kid"%string with
  | None | Some (VString _) => Some hdr
  | Some _ => None
  end.

(** Modelled from the spec: the JSON form of a message (section 6), in its
    flattened single-signature shape: string members [payload],
    [protected] and [signature]. *)
Definition unmarshalMessage (d : bytes) : option Message :=
  o ← object d;
  sg ← match o !! "signature"%string with
       | Some (VString v) => decode (list_byte_of_string v)
       | _ => None
       end;
  prot ← match o !! "protected"%string with
         | Some (VString v) =>
             dp ← decode (list_byte_of_string v);
             h ← unmarshalHeaders dp;
             Some (Some h)
         | None => Some None
         | Some _ => None
         end;
  let b64 := match prot with Some h => getB64Value h | None => true end in
  pl ← match o !! "payload"%string with
       | Some (VString v) =>
           if b64 then decode (list_byte_of_string v)
           else Some (list_byte_of_string v)
       | None => Some []
       | Some _ => None
       end;
  Some {| msg_payload := pl;
          msg_signatures := [ {| sig_headers := None; sig_protected := prot;
                                 sig_signature := sg |} ];
          msg_b64 := b64 |}.

Definition digitChar (d : Z) : byte := byteOfZ (48 + d).

Fixpoint decimal (fuel : nat) (n : Z) (acc : bytes) : bytes :=
  match fuel with
  | O => acc
  | S fuel' =>
      if n <? 10 then digitChar n :: acc
      else decimal fuel' (n / 10) (digitChar (n mod 10) :: acc)
  end.

Definition marshalValue (v : Value) : bytes :=
  match v with
  | VString s => quote :: list_byte_of_string s ++ [quote]
  | VBool true => B "true"
  | VBool false => B "false"
  | VNull => B "null"
  | VNumber n =>
      if n <? 0 then B "-" ++ decimal (Z.to_nat (- n)) (- n) []
      else decimal (S (Z.to_nat n)) n []
  end.

Fixpoint marshalMembers (ms : list (string * Value)) : bytes :=
  match ms with
  | [] => []
  | [(k, v)] =>
      quote :: list_byte_of_string k ++ quote :: B ":" ++ marshalValue v
  | (k, v) :: rest =>
      quote :: list_byte_of_string k ++ quote :: B ":" ++ marshalValue v
      ++ B "," ++ marshalMembers rest
  end.

Definition marshalHeaders (h : option Headers) : option bytes :=
  match h with
  | None => Some (B "null")
  | Some hdr => Some (B "{" ++ marshalMembers (map_to_list hdr) ++ B "}")
  end.

(** In the role of the signature scheme: a one-byte checksum over the key
    material and the signing input. *)
Definition keyMaterial (key : Key) : bytes :=
  match key with
  | JwkK k => jwk_material k
  | RawK _ material => material
  end.

Definition checksum (l : bytes) : Z :=
  fold_left (fun acc b => (acc + code b) mod 256) l 0.

Definition tag (msg : bytes) (key : Key) : bytes :=
  [byteOfZ (checksum (keyMaterial key ++ msg))].

Definition checksumVerifier : Verifier :=
  fun msg sg key => bool_decide (sg = tag msg key).

Definition newVerifier (alg : string) : option Verifier :=
  if bool_decide (alg ∈ [HS256; HS384; HS512; RS256; RS384; RS512; PS256;
                         PS384; PS512; ES256; ES384; ES512; EdDSA])
  then Some checksumVerifier else None.

(** [bytes.TrimSpace] on buffers of ASCII bytes. *)
Definition asciiSpace (c : byte) : bool :=
  bool_decide (code c ∈ [9; 10; 11; 12; 13; 32]).

Fixpoint trimLeft (s : bytes) : bytes :=
  match s with
  | c :: r => if asciiSpace c then trimLeft r else s
  | [] => []
  end.

Definition trimSpace (s : bytes) : bytes := rev (trimLeft (rev (trimLeft s))).

(** [utf8.DecodeRune] on a buffer that starts with an ASCII byte; on any
    other buffer it reports [utf8.RuneError]. *)
Definition decodeRune (s : bytes) : Z :=
  match s with
  | c :: _ => if code c <? 128 then code c else 65533
  | [] => 65533
  end.

(** [unicode.IsSpace] on Latin-1. *)
Definition isSpace (r : Z) : bool :=
  bool_decide (r ∈ [9; 10; 11; 12; 13; 32; 133; 160]).

#[global] Instance env : Collaborators := {|
  base64_Decode := decode;
  base64_EncodeToString := encode;
  json_UnmarshalHeaders := unmarshalHeaders;
  json_UnmarshalMessage := unmarshalMessage;
  json_MarshalHeaders := marshalHeaders;
  NewVerifier := newVerifier;
  bytes_TrimSpace := trimSpace;
  utf8_DecodeRune := decodeRune;
  unicode_IsSpace := isSpace
|}.

(** A structured key with the given id, algorithm, usage and material. *)
Definition octKey (kid alg use : string) (material : bytes) : JwkKey :=
  {| jwk_KeyID := kid; jwk_Algorithm := alg; jwk_KeyUsage := use;
     jwk_KeyType := OctetSeq; jwk_material := material |}.

(** [Sign] in this environment, for building examples: the compact form of
    a protected header, a payload segment and the checksum tag. *)
Definition compactOf (protectedJSON : bytes) (payloadSegment : bytes)
           (key : Key) : bytes :=
  let p := encode protectedJSON in
  p ++ dot :: payloadSegment
    ++ dot :: encode (tag (p ++ dot :: payloadSegment) key).

End Ref.

(** ** Example messages

    Compact messages are written as they travel. Their protected headers
    are, in JSON: [hello], [detached]: alg HS256; [withKid]: alg HS256 and
    kid k1; [b64Number]: alg HS256 and b64 the number 1; [b64FalseRaw]:
    alg HS256 and b64 false. The signature segment is the checksum tag of
    the reference environment for key material [secret]. *)

Module Examples.
Import Split Jws Ref.

Definition key_k1 : Key := JwkK (octKey "k1" "HS256" "sig" (B "secret")).
Definition key_k2 : Key := JwkK (octKey "k2" "HS256" "sig" (B "secret")).
Definition key_nokid : Key := JwkK (octKey "" "HS256" "sig" (B "secret")).
Definition key_raw : Key := RawK ByteSlice (B "secret").

Definition hello : bytes := B "eyJhbGciOiJIUzI1NiJ9.aGVsbG8.2Q".
Definition detached : bytes := B "eyJhbGciOiJIUzI1NiJ9..2Q".
Definition withKid : bytes :=
  B "eyJhbGciOiJIUzI1NiIsImtpZCI6ImsxIn0.aGVsbG8.UA".
Definition b64Number : bytes :=
  B "eyJhbGciOiJIUzI1NiIsImI2NCI6MX0.aGVsbG8.KA".
Definition b64FalseRaw : bytes :=
  B "eyJhbGciOiJIUzI1NiIsImI2NCI6ZmFsc2V9.he!!o.Iw".

(** A quoted JSON string and an object with the given members. *)
Definition q (s : string) : bytes := quote :: B s ++ [quote].

Definition obj (ms : list (string * bytes)) : bytes :=
  B "{" ++ Join (map (fun kv => q kv.1 ++ B ":" ++ kv.2) ms) ","%byte
    ++ B "}".

(** The message [hello] in flattened JSON form. *)
Definition helloJSON : bytes :=
  obj [("payload"%string, q "aGVsbG8");
       ("protected"%string, q "eyJhbGciOiJIUzI1NiJ9");
       ("signature"%string, q "2Q")].

(** A key set whose first key is for encryption and whose second key is
    for signatures. *)
Definition encThenSig : KeySet :=
  setOfList [octKey "e" "HS256" "enc" (B "secret");
             octKey "s" "HS256" "sig" (B "secret")].

End Examples.

(** ** The string variant of the splitter *)

Module SplitString.
Import Split.

(** [strings.Split(s, sep)] for a separator of one character. *)
Fixpoint StringsSplit (s : string) (sep : ascii) : list string :=
  match s with
  | EmptyString => [EmptyString]
  | String c r =>
      if decide (c = sep) then EmptyString :: StringsSplit r sep
      else match StringsSplit r sep with
           | h :: t => String c h :: t
           | [] => [String c EmptyString]
           end
  end.

(** [SplitCompactString]. *)
Definition SplitCompactString (src : string) : Result (bytes * bytes * bytes) :=
  let parts := StringsSplit src "."%char in
  if len parts <? 3 then Err MalformedSegments
  else Ok (list_byte_of_string (nth 0 parts EmptyString),
           list_byte_of_string (nth 1 parts EmptyString),
           list_byte_of_string (nth 2 parts EmptyString)).

End SplitString.

(** ** Signing *)

Module Sign.
Import Split Jws.

(** [Signer]: the interface with [Algorithm] and [Sign]. *)
Record Signer := {
  signer_Algorithm : string;
  signer_Sign : bytes -> Key -> option bytes
}.

(** [Headers] values are references: the code shares them between the
    caller, the signer configuration and the signature, and updates them
    in place. [Heap] holds the header objects by address; a nil [Headers]
    is [None]. *)
Abbreviation Heap := (gmap nat Headers).

(** [NewHeaders()]: a new, empty header object. *)
Definition NewHeaders (heap : Heap) : nat * Heap :=
  let l := fresh (dom heap) in (l, <[l := ∅]> heap).

(** [payloadSigner]. The signer of a configuration is a signer: a
    configuration made from a nil [Signer] is outside this model. *)
Record payloadSigner := {
  ps_signer : Signer;
  ps_key : Key;
  ps_protected : option nat;
  ps_public : option nat
}.

(** The methods of [payloadSigner]. *)
Definition payloadSigner_Sign (s : payloadSigner) (payload : bytes)
  : option bytes :=
  signer_Sign (ps_signer s) payload (ps_key s).

Definition payloadSigner_Algorithm (s : payloadSigner) : string :=
  signer_Algorithm (ps_signer s).

Definition ProtectedHeader (s : payloadSigner) : option nat := ps_protected s.

Definition PublicHeader (s : payloadSigner) : option nat := ps_public s.

(** An option: its identity and its value. The sink of [WithMessage] is
    given by an address. *)
Inductive Option :=
| identPayloadSigner (value : payloadSigner)
| identHeaders (value : option nat)
| identMessage (value : nat).


Definition WithHeaders (h : option nat) : Option := identHeaders h.

Definition WithMessage (m : nat) : Option := identMessage m.

(** A [Signature] object as the signing functions hold it. *)
Record SignatureObj := {
  so_headers : option nat;
  so_protected : option nat;
  so_signature : bytes
}.

(** The errors of the signing functions. *)
Inductive SignError :=
| CreateSignerFailed            (* Sign: NewSigner failed *)
| SignPayloadFailed             (* Sign: sig.Sign failed *)
| NoSignersProvided             (* SignMulti: no signer among the options *)
| SetHeaderFailed               (* SignMulti: protected.Set failed *)
| SignerFailed (i : nat) (alg : string)  (* SignMulti: signer #i failed *)
| MarshalFailed.                (* SignMulti: json.Marshal failed *)

Inductive SignResult (A : Type) :=
| SOk (a : A)
| SErr (e : SignError).
Arguments SOk {A} a.
Arguments SErr {A} e.

(** How a call ends: it returns, or it panics. *)
Inductive Run (A : Type) :=
| Returns (a : A)
| Panics.
Arguments Returns {A} a.
Arguments Panics {A}.

(** What the signing functions call outside the sources at hand:
    [NewSigner]; [hdr.Set(name, value)], [None] when it refuses the value;
    [sig.Sign(payload, signer, key)], which may update header objects and
    the signature object and returns the serialized signature, or fails;
    [json.Marshal] of a message, given by its payload and signatures. *)
Class SignCollaborators := {
  NewSigner : string -> option Signer;
  headers_Set : Headers -> string -> Value -> option Headers;
  signature_Sign :
    Heap -> SignatureObj -> bytes -> Signer -> Key ->
    Heap * option (SignatureObj * bytes);
  json_MarshalMessage : Heap -> bytes -> list SignatureObj -> option bytes
}.

(** The state the signing functions work on: the signer cache [signers]
    and the header objects. *)
Record World := {
  signers : gmap string Signer;
  heap : Heap
}.

Section WithSignCollaborators.
Context `{SignCollaborators}.

(** The loop of [Sign] over its options, [hdrs] being the headers found
    so far. The assertion [o.Value().(Headers)] is of the form with one
    result: on an option of identity [identHeaders] whose value is a nil
    [Headers] it panics. *)
Fixpoint headersOption (options : list Option) (hdrs : option nat)
  : Run (option nat) :=
  match options with
  | [] => Returns hdrs
  | identHeaders (Some l) :: rest => headersOption rest (Some l)
  | identHeaders None :: _ => Panics
  | _ :: rest => headersOption rest hdrs
  end.

(** [Sign]. The loop over the options comes first: when it panics, the
    signer cache has not been read. *)
Definition Sign (payload : bytes) (alg : string) (key : Key)
           (options : list Option) (w : World)
  : Run (SignResult bytes * World) :=
  match headersOption options None with
  | Panics => Panics
  | Returns hdrs =>
      let found :=
        match signers w !! alg with
        | Some signer => Some (signer, signers w)
        | None =>
            match NewSigner alg with
            | Some v => Some (v, <[alg := v]> (signers w))
            | None => None
            end
        end in
      match found with
      | None => Returns (SErr CreateSignerFailed, w)
      | Some (signer, signers') =>
          let sig := {| so_headers := None; so_protected := hdrs;
                        so_signature := [] |} in
          match signature_Sign (heap w) sig payload signer key with
          | (heap', None) =>
              Returns (SErr SignPayloadFailed,
                       {| signers := signers'; heap := heap' |})
          | (heap', Some (_, signature)) =>
              Returns (SOk signature,
                       {| signers := signers'; heap := heap' |})
          end
      end
  end.

(** The first loop of [SignMulti]: the signers among the options. *)
Definition signersOf (options : list Option) : list payloadSigner :=
  omap (fun o => match o with
                 | identPayloadSigner value => Some value
                 | _ => None
                 end) options.

(** The second loop of [SignMulti], from signer [i] on; [sigs] are the
    signatures made so far. *)
Fixpoint signEach (payload : bytes) (i : nat) (todo : list payloadSigner)
         (h : Heap) (sigs : list SignatureObj)
  : SignResult (list SignatureObj) * Heap :=
  match todo with
  | [] => (SOk sigs, h)
  | signer :: rest =>
      let '(protected, h) :=
        match ProtectedHeader signer with
        | Some l => (l, h)
        | None => NewHeaders h
        end in
      match headers_Set (default ∅ (h !! protected)) "alg"
                        (VString (payloadSigner_Algorithm signer)) with
      | None => (SErr SetHeaderFailed, h)
      | Some hdr =>
          let h := <[protected := hdr]> h in
          let sig := {| so_headers := PublicHeader signer;
                        so_protected := Some protected;
                        so_signature := [] |} in
          match signature_Sign h sig payload (ps_signer signer)
                               (ps_key signer) with
          | (h, None) =>
              (SErr (SignerFailed i (payloadSigner_Algorithm signer)), h)
          | (h, Some (sig, _)) => signEach payload (S i) rest h (sigs ++ [sig])
          end
      end
  end.

(** [SignMulti]. *)
Definition SignMulti (payload : bytes) (options : list Option) (h : Heap)
  : SignResult bytes * Heap :=
  let signers := signersOf options in
  if len signers =? 0 then (SErr NoSignersProvided, h)
  else
    match signEach payload 0 signers h [] with
    | (SErr e, h) => (SErr e, h)
    | (SOk sigs, h) =>
        match json_MarshalMessage h payload sigs with
        | Some out => (SOk out, h)
        | None => (SErr MarshalFailed, h)
        end
    end.



End WithSignCollaborators.

End Sign.

(** ** A reference environment for signing *)

Module RefSign.
Import Split Jws Sign Ref.

(** In the role of the signature scheme: the checksum tag of [Ref]; a key
    without material is refused. *)
Definition checksumSigner (alg : string) : Signer :=
  {| signer_Algorithm := alg;
     signer_Sign := fun msg key =>
                      match keyMaterial key with
                      | [] => None
                      | _ :: _ => Some (tag msg key)
                      end |}.

Definition newSigner (alg : string) : option Signer :=
  if bool_decide (alg ∈ [HS256; HS384; HS512; RS256; RS384; RS512; PS256;
                         PS384; PS512; ES256; ES384; ES512; EdDSA])
  then Some (checksumSigner alg) else None.

(** Modelled from the spec: [hdr.Set] overwrites the field. *)
Definition set (hdr : Headers) (name : string) (v : Value) : option Headers :=
  Some (<[name := v]> hdr).

(** Modelled from the spec: [sig.Sign] is not part of the sources at hand.
    Section 4.3 of the specification: the algorithm is merged into the
    protected header, the signing input is the base64url text of the
    protected header, a separator and the payload, in base64url unless
    field b64 says otherwise, and the compact form adds a separator and the
    base64url text of the signature. *)
Definition sign (h : Heap) (sig : SignatureObj) (payload : bytes)
           (signer : Signer) (key : Key)
  : Heap * option (SignatureObj * bytes) :=
  let '(l, h) := match so_protected sig with
                 | Some l => (l, h)
                 | None => NewHeaders h
                 end in
  let hdr := <["alg"%string := VString (signer_Algorithm signer)]>
               (default ∅ (h !! l)) in
  let h := <[l := hdr]> h in
  match marshalHeaders (Some hdr) with
  | None => (h, None)
  | Some pj =>
      let input :=
        encode pj ++ dot :: (if getB64Value hdr then encode payload
                             else payload) in
      match signer_Sign signer input key with
      | None => (h, None)
      | Some s =>
          (h, Some ({| so_headers := so_headers sig; so_protected := Some l;
                       so_signature := s |},
                    input ++ dot :: encode s))
      end
  end.

(** Modelled from the spec: the JSON form of section 6, with members
    [payload] and [signatures], each signature with [protected] and
    [signature]. *)
Definition marshalSignature (h : Heap) (sig : SignatureObj) : bytes :=
  let pj := default [] (marshalHeaders (so_protected sig ≫= (h !!.))) in
  B "{" ++ quote :: B "protected" ++ quote :: B ":"
    ++ quote :: encode pj ++ quote :: B ","
    ++ quote :: B "signature" ++ quote :: B ":"
    ++ quote :: encode (so_signature sig) ++ quote :: B "}".

Definition marshalMessage (h : Heap) (payload : bytes)
           (sigs : list SignatureObj) : option bytes :=
  Some (B "{" ++ quote :: B "payload" ++ quote :: B ":"
          ++ quote :: encode payload ++ quote :: B ","
          ++ quote :: B "signatures" ++ quote :: B ":["
          ++ Join (map (marshalSignature h) sigs) ","%byte ++ B "]}").

#[global] Instance signEnv : SignCollaborators := {|
  NewSigner := newSigner;
  headers_Set := set;
  signature_Sign := sign;
  json_MarshalMessage := marshalMessage
|}.

Definition world0 : World := {| signers := ∅; heap := ∅ |}.



End RefSign.

(** ** Flattened JSON messages with an unprotected header *)

Module RefHeader.
Import Split Jws Ref.

(** A member value: an atom, or an object of atoms. *)
Inductive MemberValue :=
| Atom (v : Value)
| Object (o : gmap string Value).

(** An object of atoms at the start of [s], and what follows it. *)
Definition objectPrefix (s : bytes) : option (gmap string Value * bytes) :=
  r ← stripPrefix (B "{") (skipWs s);
  '(ms, rest) ←
    match stripPrefix (B "}") (skipWs r) with
    | Some r' => Some ([], r')
    | None => members (length s) r []
    end;
  Some (fold_left (fun m kv => <[kv.1 := kv.2]> m) ms ∅, rest).

Definition memberValue (s : bytes) : option (MemberValue * bytes) :=
  match stripPrefix (B "{") s with
  | Some _ => '(o, rest) ← objectPrefix s; Some (Object o, rest)
  | None => '(v, rest) ← value s; Some (Atom v, rest)
  end.

Fixpoint membersH (fuel : nat) (s : bytes)
         (acc : list (string * MemberValue))
  : option (list (string * MemberValue) * bytes) :=
  match fuel with
  | O => None
  | S fuel' =>
      r ← stripPrefix [quote] (skipWs s);
      '(k, r) ← strBody r [];
      r ← stripPrefix (B ":") (skipWs r);
      '(v, r) ← memberValue (skipWs r);
      let acc := (string_of_list_byte k, v) :: acc in
      match stripPrefix (B ",") (skipWs r) with
      | Some r' => membersH fuel' r' acc
      | None =>
          r' ← stripPrefix (B "}") (skipWs r);
          Some (rev acc, r')
      end
  end.

Definition objectH (s : bytes) : option (gmap string MemberValue) :=
  r ← stripPrefix (B "{") (skipWs s);
  '(ms, rest) ← membersH (length s) r [];
  match skipWs rest with
  | [] => Some (fold_left (fun m kv => <[kv.1 := kv.2]> m) ms ∅)
  | _ :: _ => None
  end.

(** Modelled from the spec: the flattened JSON form of section 6, with
    string members [payload], [protected] and [signature] and an object
    member [header] for the unprotected header. *)
Definition unmarshalMessage (d : bytes) : option Message :=
  o ← objectH d;
  sg ← match o !! "signature"%string with
       | Some (Atom (VString v)) => decode (list_byte_of_string v)
       | _ => None
       end;
  prot ← match o !! "protected"%string with
         | Some (Atom (VString v)) =>
             dp ← decode (list_byte_of_string v);
             h ← unmarshalHeaders dp;
             Some (Some h)
         | None => Some None
         | Some _ => None
         end;
  hd ← match o !! "header"%string with
       | Some (Object h) => Some (Some h)
       | None => Some None
       | Some _ => None
       end;
  let b64 := match prot with Some h => getB64Value h | None => true end in
  pl ← match o !! "payload"%string with
       | Some (Atom (VString v)) =>
           if b64 then decode (list_byte_of_string v)
           else Some (list_byte_of_string v)
       | None => Some []
       | Some _ => None
       end;
  Some {| msg_payload := pl;
          msg_signatures := [ {| sig_headers := hd; sig_protected := prot;
                                 sig_signature := sg |} ];
          msg_b64 := b64 |}.

(** The reference environment with this reader of messages. *)
Definition env : Collaborators := {|
  base64_Decode := decode;
  base64_EncodeToString := encode;
  json_UnmarshalHeaders := unmarshalHeaders;
  json_UnmarshalMessage := unmarshalMessage;
  json_MarshalHeaders := marshalHeaders;
  NewVerifier := newVerifier;
  bytes_TrimSpace := trimSpace;
  utf8_DecodeRune := decodeRune;
  unicode_IsSpace := isSpace
|}.

End RefHeader.

(** ** More example messages *)

Module Examples2.
Import Split Jws Ref Examples.

(** The message [hello] in flattened JSON form, with an unprotected header
    that names key id k1. *)
Definition helloJSONkid : bytes :=
  obj [("header"%string, obj [("kid"%string, q "k1")]);
       ("payload"%string, q "aGVsbG8");
       ("protected"%string, q "eyJhbGciOiJIUzI1NiJ9");
       ("signature"%string, q "2Q")].

(** A space, the two bytes of a letter outside ASCII, and [hello]. *)
Definition spaceHighHello : bytes := B " " ++ [xc3; xa9] ++ hello.

(** Keys k2 and k1, in that order. *)
Definition k2ThenK1 : KeySet :=
  setOfList [octKey "k2" "HS256" "sig" (B "secret");
             octKey "k1" "HS256" "sig" (B "secret")].

(** The zero value of Message, as a caller declares it before passing its
    address to WithMessage. *)
Definition zeroMessage : Message :=
  {| msg_payload := []; msg_signatures := []; msg_b64 := false |}.

End Examples2.

(** ** Facts about splitting *)

Module SplitFacts.
Import Split.

Lemma IndexByte_range (s : bytes) (c : byte) :
  IndexByte s c = -1 \/ (0 <= IndexByte s c < len s).
Proof.
  unfold len. induction s as [|x r IH]; simpl; [left; reflexivity|].
  destruct (decide (x = c)); [right; lia|].
  destruct (Z.eqb_spec (IndexByte r c) (-1)); [left; reflexivity|right; lia].
Qed.

Lemma Split_no_sep (s : bytes) (c : byte) :
  IndexByte s c = -1 -> Split s c = [s].
Proof.
  induction s as [|x r IH]; simpl; [reflexivity|].
  destruct (decide (x = c)); [discriminate|].
  destruct (Z.eqb_spec (IndexByte r c) (-1)) as [E|E].
  - intros _. rewrite (IH E). reflexivity.
  - destruct (IndexByte_range r c); lia.
Qed.

Lemma Split_at_index (s : bytes) (c : byte) :
  IndexByte s c <> -1 ->
  Split s c = slice_to s (IndexByte s c)
              :: Split (slice_from s (IndexByte s c + 1)) c.
Proof.
  unfold slice_to, slice_from.
  induction s as [|x r IH]; simpl; [congruence|].
  destruct (decide (x = c)); [intros _; reflexivity|].
  destruct (Z.eqb_spec (IndexByte r c) (-1)) as [E|E]; [congruence|].
  intros _. rewrite (IH E).
  destruct (IndexByte_range r c) as [?|Hr]; [lia|].
  replace (Z.to_nat (IndexByte r c + 1)) with (S (Z.to_nat (IndexByte r c))) by lia.
  replace (Z.to_nat (IndexByte r c + 1 + 1))
    with (S (S (Z.to_nat (IndexByte r c)))) by lia.
  reflexivity.
Qed.

Lemma Split_nonempty (s : bytes) (c : byte) : Split s c <> [].
Proof.
  destruct s as [|x r]; simpl; [discriminate|].
  destruct (decide (x = c)); [discriminate|].
  destruct (Split r c); discriminate.
Qed.

Lemma Split_length (s : bytes) (c : byte) :
  length (Split s c) = S (Count s c).
Proof.
  induction s as [|x r IH]; simpl; [reflexivity|].
  destruct (decide (x = c)); simpl; [congruence|].
  destruct (Split r c); simpl in *; congruence.
Qed.

Lemma capture_found (i : Z) (st : splitState) :
  0 <= i < len (sofar st) ->
  capture i (periods st + 1) st
  = setSofar (slice_from (sofar st) (i + 1))
             (bump (commit (slice_to (sofar st) i) st)).
Proof.
  intros Hi. unfold capture, commit, bump, setSofar.
  destruct (Z.gtb_spec (len (sofar st)) i); [|lia].
  destruct st as [p q r n k s]; simpl in *.
  destruct (k =? 0); [reflexivity|].
  destruct (k =? 1); [reflexivity|].
  destruct (k =? 2); reflexivity.
Qed.

Lemma capture_rest (st : splitState) :
  capture (len (sofar st)) (periods st) st
  = setSofar (sofar st) (commit (sofar st) st).
Proof.
  unfold capture, commit, setSofar, slice_to, len.
  destruct (Z.gtb_spec (Z.of_nat (length (sofar st)))
                       (Z.of_nat (length (sofar st)))); [lia|].
  rewrite Nat2Z.id, firstn_all.
  destruct st as [p q r n k s]; simpl in *.
  destruct (k =? 0); [reflexivity|].
  destruct (k =? 1); [reflexivity|].
  destruct (k =? 2); reflexivity.
Qed.

Lemma slots_commit (seg : bytes) (st st' : splitState) :
  slots st = slots st' -> slots (commit seg st) = slots (commit seg st').
Proof.
  destruct st, st'; unfold slots, commit; simpl.
  intros [= -> -> -> -> ->].
  repeat match goal with |- context [if ?b then _ else _] => destruct b end;
    reflexivity.
Qed.

Lemma slots_bump (st st' : splitState) :
  slots st = slots st' -> slots (bump st) = slots (bump st').
Proof.
  destruct st, st'; unfold slots, bump; simpl.
  intros [= -> -> -> -> ->]. reflexivity.
Qed.

Lemma slots_setSofar (s : bytes) (st : splitState) :
  slots (setSofar s st) = slots st.
Proof. reflexivity. Qed.

Lemma setSofar_slots (s : bytes) (st st' : splitState) :
  slots st = slots st' -> setSofar s st = setSofar s st'.
Proof.
  destruct st, st'; unfold slots, setSofar; simpl.
  intros [= -> -> -> -> ->]. reflexivity.
Qed.

Lemma feedSegs_slots (eof : bool) (segs : list bytes) :
  segs <> [] ->
  forall st st', slots st = slots st' ->
                 feedSegs eof segs st = feedSegs eof segs st'.
Proof.
  induction segs as [|seg rest IH]; [congruence|].
  intros _ st st' Hs. simpl. destruct rest as [|seg' rest'].
  - destruct eof; apply setSofar_slots;
      [apply slots_commit|]; assumption.
  - apply IH; [discriminate|]. apply slots_bump, slots_commit, Hs.
Qed.

(** The inner loop computes [feedSegs] on the segments of the rolling
    buffer, whenever it is given at least [S (length sofar)] iterations. *)
Lemma scanLoop_spec (eof : bool) (fuel : nat) :
  forall st : splitState,
    (length (sofar st) < fuel)%nat ->
    scanLoop fuel eof st = feedSegs eof (Split (sofar st) dot) st.
Proof.
  induction fuel as [|fuel IH]; intros st Hf; [lia|].
  simpl. destruct (Z.eqb_spec (IndexByte (sofar st) dot) (-1)) as [E|E].
  - rewrite (Split_no_sep _ _ E). simpl.
    destruct eof; simpl.
    + apply capture_rest.
    + destruct st; reflexivity.
  - destruct (IndexByte_range (sofar st) dot) as [?|Hr]; [lia|].
    simpl. rewrite (Split_at_index _ _ E).
    rewrite (capture_found _ _ Hr).
    set (st1 := bump (commit _ st)).
    set (rest := slice_from (sofar st) (IndexByte (sofar st) dot + 1)).
    rewrite IH.
    + simpl sofar.
      pose proof (Split_nonempty rest dot) as Hne.
      change (feedSegs eof (slice_to (sofar st) (IndexByte (sofar st) dot)
                            :: Split rest dot) st)
        with (match Split rest dot with
              | [] => if eof
                      then setSofar (slice_to (sofar st) (IndexByte (sofar st) dot))
                             (commit (slice_to (sofar st) (IndexByte (sofar st) dot)) st)
                      else setSofar (slice_to (sofar st) (IndexByte (sofar st) dot)) st
              | _ :: _ => feedSegs eof (Split rest dot) st1
              end).
      destruct (Split rest dot) as [|h t] eqn:Es; [congruence|].
      apply feedSegs_slots; [discriminate|]. reflexivity.
    + simpl sofar. unfold rest, slice_from, len in *.
      rewrite length_drop. lia.
Qed.

Lemma scan_spec (eof : bool) (st : splitState) :
  scan eof st = feedSegs eof (Split (sofar st) dot) st.
Proof. unfold scan. apply scanLoop_spec. lia. Qed.

(** More iterations than [S (length sofar)] change nothing: the bound of
    [scan] is never the reason the loop stops. *)
Lemma scanLoop_fuel (eof : bool) (fuel : nat) (st : splitState) :
  (length (sofar st) < fuel)%nat -> scanLoop fuel eof st = scan eof st.
Proof. intros H. rewrite scan_spec. apply scanLoop_spec, H. Qed.

Lemma feedSegs_app (eof : bool) (ia segs : list bytes) :
  segs <> [] ->
  forall st, feedSegs eof (ia ++ segs) st
             = feedSegs eof segs (fold_left closeSeg ia st).
Proof.
  intros Hne. induction ia as [|seg ia IH]; intros st; [reflexivity|].
  simpl app. simpl fold_left. rewrite <- IH.
  simpl. destruct (ia ++ segs) eqn:E; [|reflexivity].
  apply app_eq_nil in E. tauto.
Qed.

Lemma fold_closeSeg_slots (ia : list bytes) :
  forall s1 s2, slots s1 = slots s2 ->
                slots (fold_left closeSeg ia s1)
                = slots (fold_left closeSeg ia s2).
Proof.
  induction ia as [|seg ia IH]; intros s1 s2 H; simpl; [exact H|].
  apply IH. unfold closeSeg. apply slots_bump, slots_commit, H.
Qed.

Lemma Split_snoc_app (c : byte) (b : bytes) :
  forall (a : bytes) (ia : list bytes) (la : bytes),
    Split a c = ia ++ [la] ->
    Split (a ++ b) c = ia ++ Split (la ++ b) c.
Proof.
  induction a as [|x r IH]; intros ia la H.
  - simpl in H. destruct ia as [|? [|? ?]]; simplify_eq/=. reflexivity.
  - simpl in H. simpl app. simpl Split.
    destruct (decide (x = c)) as [->|Hx].
    + destruct ia as [|i0 ia'].
      * simpl in H. injection H as H1 H2.
        exfalso. eapply Split_nonempty, H2.
      * simpl in H. injection H as <- H2.
        rewrite (IH _ _ H2). reflexivity.
    + destruct (Split r c) as [|h t] eqn:Es;
        [exfalso; eapply Split_nonempty, Es|].
      destruct ia as [|i0 ia'].
      * simpl in H. injection H as <- Ht. subst t.
        rewrite (IH [] h eq_refl). simpl.
        destruct (decide (x = c)); [congruence|].
        destruct (Split (h ++ b) c) eqn:E2; [|reflexivity].
        exfalso; eapply Split_nonempty, E2.
      * simpl in H. injection H as <- Ht. subst t.
        rewrite (IH (h :: ia') la eq_refl). reflexivity.
Qed.

Lemma Split_decompose (s : bytes) (c : byte) :
  exists ia la, Split s c = ia ++ [la].
Proof.
  destruct (Split s c) as [|h t] eqn:E using rev_ind.
  - exfalso; eapply Split_nonempty, E.
  - eauto.
Qed.

(** The outer loop: whatever the chunking, the final state is the one
    reached by feeding the segments of the whole content. *)
Lemma readLoop_spec (reads : list (bytes * option ReadErr)) :
  forall (st : splitState) (buf : bytes),
    delivered reads = Some buf ->
    readLoop reads st = Ok (feedSegs true (Split (sofar st ++ buf) dot) st).
Proof.
  induction reads as [|[chunk [[|]|]] rest IH]; intros st buf Hd; simpl in *.
  - injection Hd as <-. rewrite app_nil_r, scan_spec. reflexivity.
  - injection Hd as <-. rewrite scan_spec. simpl.
    f_equal. apply feedSegs_slots; [apply Split_nonempty|reflexivity].
  - discriminate.
  - destruct (delivered rest) as [d|] eqn:Er; [|discriminate].
    injection Hd as <-.
    rewrite (IH _ d eq_refl), scan_spec. simpl sofar. f_equal.
    destruct (Split_decompose (sofar st ++ chunk) dot) as (ia & la & Es).
    rewrite Es, app_assoc, (Split_snoc_app _ _ _ _ _ Es).
    rewrite !feedSegs_app by (discriminate || apply Split_nonempty).
    simpl. apply feedSegs_slots; [apply Split_nonempty|].
    rewrite slots_setSofar. apply fold_closeSeg_slots. reflexivity.
Qed.

Lemma periods_commit (seg : bytes) (st : splitState) :
  periods (commit seg st) = periods st.
Proof.
  unfold commit.
  repeat match goal with |- context [if ?b then _ else _] => destruct b end;
    reflexivity.
Qed.

Lemma feedSegs_periods (eof : bool) (segs : list bytes) :
  segs <> [] ->
  forall st, periods (feedSegs eof segs st) = periods st + len segs - 1.
Proof.
  unfold len.
  induction segs as [|seg rest IH]; [congruence|]. intros _ st.
  destruct rest as [|seg' rest'].
  - simpl. destruct eof; simpl; rewrite ?periods_commit; lia.
  - change (feedSegs eof (seg :: seg' :: rest') st)
      with (feedSegs eof (seg' :: rest') (bump (commit seg st))).
    rewrite IH by discriminate. simpl. rewrite periods_commit. lia.
Qed.

(** [SplitCompact] by cases on the segments. *)
Lemma SplitCompact_cases (src : bytes) :
  SplitCompact src
  = match Split src dot with
    | p :: pl :: sg :: _ => Ok (p, pl, sg)
    | _ => Err MalformedSegments
    end.
Proof.
  unfold SplitCompact, len.
  destruct (Split src dot) as [|p [|pl [|sg rest]]]; try reflexivity.
  simpl length. destruct (Z.ltb_spec (Z.of_nat (S (S (S (length rest))))) 3);
    [lia|reflexivity].
Qed.

(** The streaming splitter on a reader that is not in memory, by cases on
    the segments of what it delivers. *)
Lemma SplitCompactReader_cases (reads : list (bytes * option ReadErr))
      (buf : bytes) :
  delivered reads = Some buf ->
  SplitCompactReader (Stream reads)
  = match Split buf dot with
    | [p; pl; sg] => Ok (p, pl, sg)
    | _ => Err MalformedSegments
    end.
Proof.
  intros Hd. unfold SplitCompactReader. simpl.
  rewrite (readLoop_spec _ _ _ Hd). simpl app.
  destruct (Split buf dot) as [|p [|pl [|sg [|x rest]]]] eqn:E;
    try reflexivity.
  rewrite feedSegs_periods by discriminate.
  unfold len. simpl length. simpl periods.
  destruct (Z.eqb_spec (0 + Z.of_nat (S (S (S (S (length rest))))) - 1) 2);
    [lia|reflexivity].
Qed.

Lemma Join_Split (s : bytes) (c : byte) : Join (Split s c) c = s.
Proof.
  induction s as [|x r IH]; [reflexivity|]. simpl Split.
  destruct (decide (x = c)) as [->|Hx].
  - pose proof (Split_nonempty r c).
    simpl. destruct (Split r c) eqn:E; [congruence|].
    rewrite <- IH. reflexivity.
  - destruct (Split r c) as [|h t] eqn:E;
      [exfalso; eapply Split_nonempty, E|].
    rewrite <- IH. destruct t; reflexivity.
Qed.

Lemma Split_segment_clean (s : bytes) (c : byte) :
  Forall (fun seg => c ∉ seg) (Split s c).
Proof.
  induction s as [|x r IH]; simpl.
  - repeat constructor. apply not_elem_of_nil.
  - destruct (decide (x = c)).
    + constructor; [apply not_elem_of_nil|exact IH].
    + destruct (Split r c) as [|h t]; [repeat constructor|].
      * rewrite elem_of_cons, elem_of_nil. intros [->|[]]. congruence.
      * inversion IH; subst. constructor; [|assumption].
        rewrite elem_of_cons. intros [->|?]; [congruence|tauto].
Qed.

Lemma chunksOf_concat (k : nat) :
  (1 <= k)%nat ->
  forall (fuel : nat) (buf : bytes),
    (length buf <= fuel)%nat -> concat (chunksOf fuel k buf) = buf.
Proof.
  intros Hk. induction fuel as [|fuel IH]; intros buf Hl.
  - destruct buf; simpl in *; [reflexivity|lia].
  - destruct buf as [|x r]; [reflexivity|].
    change (concat (chunksOf (S fuel) k (x :: r)))
      with (take k (x :: r) ++ concat (chunksOf fuel k (drop k (x :: r)))).
    rewrite IH; [apply take_drop|].
    rewrite length_drop. simpl in *. lia.
Qed.

Lemma delivered_plain (cs : list bytes) :
  delivered (map (fun c => (c, None)) cs) = Some (concat cs).
Proof.
  induction cs as [|c cs IH]; simpl; [reflexivity|].
  rewrite IH. reflexivity.
Qed.

(** A reader over [buf] with chunk size at least one delivers [buf]. *)
Lemma content_reader_over (k : nat) (buf : bytes) :
  (1 <= k)%nat -> content (reader_over k buf) = Some buf.
Proof.
  intros Hk. unfold reader_over. simpl.
  rewrite delivered_plain, chunksOf_concat; auto.
Qed.


Lemma SplitCompact_enough (src : bytes) :
  (2 <= Count src dot)%nat ->
  exists p pl sg rest,
    Split src dot = p :: pl :: sg :: rest
    /\ length rest = (Count src dot - 2)%nat
    /\ SplitCompact src = Ok (p, pl, sg).
Proof.
  intros Hn. pose proof (Split_length src dot) as Hl.
  rewrite SplitCompact_cases.
  destruct (Split src dot) as [|p [|pl [|sg rest]]]; simpl in Hl; try lia.
  exists p, pl, sg, rest. repeat split. lia.
Qed.


(** With three separators or more the two splitters part: [SplitCompact]
    returns the first three segments, and so does [SplitCompactReader] on a
    reader held in memory, while on any other reader it fails. *)
Lemma SplitCompactReader_extra_segments (rdr : Reader) (buf : bytes) :
  content rdr = Some buf ->
  (2 < Count buf dot)%nat ->
  is_ok (SplitCompact buf) = true
  /\ SplitCompactReader rdr
     = match rdr with
       | InMemory _ => SplitCompact buf
       | Stream _ => Err MalformedSegments
       end.
Proof.
  intros Hc Hn.
  destruct (SplitCompact_enough buf) as (p & pl & sg & rest & Hs & Hr & Hok);
    [lia|].
  split; [rewrite Hok; reflexivity|].
  destruct rdr as [data|reads]; simpl in Hc.
  - injection Hc as ->. reflexivity.
  - rewrite (SplitCompactReader_cases _ _ Hc), Hs.
    destruct rest; [simpl in Hr; lia|reflexivity].
Qed.


End SplitFacts.

(** ** Facts about verification and parsing *)

Module JwsFacts.
Import Split SplitFacts Jws.

Section WithCollaborators.
Context `{Collaborators}.

Lemma bind_Ok {A C} (a : A) (k : A -> Result C) : (Ok a ≫= k) = k a.
Proof. reflexivity. Qed.

(** [verifyCompact] once the segments are split, the verifier is made and
    the signature and header are decoded. *)
Lemma verifyCompactCore_decoded (signed : bytes) (alg : string) (key : Key)
      (detached : option bytes) (p pl sg : bytes) (v : Verifier)
      (ds dp : bytes) (hdr : Headers) :
  SplitCompact signed = Ok (p, pl, sg) ->
  NewVerifier alg = Some v ->
  base64_Decode sg = Some ds ->
  base64_Decode p = Some dp ->
  json_UnmarshalHeaders dp = Some hdr ->
  verifyCompactCore signed alg key detached
  = if kidMismatch hdr key then Err KeyIDMismatch
    else if v (p ++ dot :: effectivePayload pl detached) ds key then
      if getB64Value hdr then
        match base64_Decode (effectivePayload pl detached) with
        | Some d => Ok (d, compactMessage d hdr ds)
        | None => Err PayloadDecodeFailed
        end
      else Ok (effectivePayload pl detached,
               compactMessage (effectivePayload pl detached) hdr ds)
    else Err VerificationFailed.
Proof.
  intros Hs Hv Hds Hdp Hh. unfold verifyCompactCore, kidMismatch.
  rewrite Hs, bind_Ok, Hv. simpl orErr. rewrite bind_Ok.
  fold (effectivePayload pl detached).
  rewrite Hds. simpl orErr. rewrite bind_Ok.
  rewrite Hdp. simpl orErr. rewrite bind_Ok.
  rewrite Hh. simpl orErr. rewrite bind_Ok.
  assert (Hrest : forall r : Result unit,
    r = Ok tt ->
    (r ≫= fun _ =>
       (if v (p ++ dot :: effectivePayload pl detached) ds key
        then Ok tt else Err VerificationFailed) ≫= fun _ =>
       (match (if negb (getB64Value hdr)
               then Some (effectivePayload pl detached) else None) with
        | Some v0 => Ok v0
        | None => orErr (base64_Decode (effectivePayload pl detached))
                        PayloadDecodeFailed
        end) ≫= fun d => Ok (d, compactMessage d hdr ds))
    = (if v (p ++ dot :: effectivePayload pl detached) ds key then
         if getB64Value hdr then
           match base64_Decode (effectivePayload pl detached) with
           | Some d => Ok (d, compactMessage d hdr ds)
           | None => Err PayloadDecodeFailed
           end
         else Ok (effectivePayload pl detached,
                  compactMessage (effectivePayload pl detached) hdr ds)
       else Err VerificationFailed)).
  { intros r ->. rewrite bind_Ok.
    destruct (v _ ds key); [|reflexivity]. rewrite bind_Ok.
    destruct (getB64Value hdr); simpl; [|reflexivity].
    destruct (base64_Decode (effectivePayload pl detached)); reflexivity. }
  destruct (negb (String.eqb (KeyID hdr) "")); simpl andb.
  - destruct key as [k|kind mat].
    + destruct (negb (String.eqb (jwk_KeyID k) (KeyID hdr))); [reflexivity|].
      apply Hrest. reflexivity.
    + apply Hrest. reflexivity.
  - apply Hrest. reflexivity.
Qed.

Lemma kidMismatch_jwk (hdr : Headers) (k : JwkKey) :
  KeyID hdr <> ""%string ->
  (kidMismatch hdr (JwkK k) = true <-> jwk_KeyID k <> KeyID hdr).
Proof.
  intros Hh. unfold kidMismatch.
  destruct (String.eqb_spec (KeyID hdr) ""); [congruence|]. simpl.
  destruct (String.eqb_spec (jwk_KeyID k) (KeyID hdr)); simpl; split;
    congruence.
Qed.

(** C1. In compact-form verification, once the protected header is decoded
    and carries a key id, a structured key that exposes a different key id
    makes the call fail with [KeyIDMismatch], whatever the verifier of the
    algorithm would answer on the signature: the verifier [v] is arbitrary,
    and the sink is left as it was. *)
Theorem verifyCompact_kid_mismatch_fatal (signed : bytes) (alg : string)
        (jwkKey : JwkKey) (dst : option Message) (detached : option bytes)
        (p pl sg : bytes) (v : Verifier) (ds dp : bytes) (hdr : Headers) :
  SplitCompact signed = Ok (p, pl, sg) ->
  NewVerifier alg = Some v ->
  base64_Decode sg = Some ds ->
  base64_Decode p = Some dp ->
  json_UnmarshalHeaders dp = Some hdr ->
  KeyID hdr <> ""%string ->
  jwk_KeyID jwkKey <> ""%string ->
  jwk_KeyID jwkKey <> KeyID hdr ->
  verifyCompact signed alg (JwkK jwkKey) dst detached
  = (Err KeyIDMismatch, dst).
Proof.
  intros Hs Hv Hds Hdp Hh Hk _ Hne. unfold verifyCompact.
  rewrite (verifyCompactCore_decoded _ _ _ _ _ _ _ _ _ _ _ Hs Hv Hds Hdp Hh).
  apply (kidMismatch_jwk hdr jwkKey Hk) in Hne. rewrite Hne. reflexivity.
Qed.

(** Without assuming that the steps before the key-id test succeed: a
    structured key whose id differs from the header's never gets a payload
    out of [verifyCompact], and the error is that of the first step that
    fails, the verifier factory, the decoding of the signature segment, or
    the key-id test. The verifier itself is never asked. *)
Lemma verifyCompact_kid_mismatch_never_verifies (signed : bytes)
      (alg : string) (jwkKey : JwkKey) (dst : option Message)
      (detached : option bytes) (p pl sg dp : bytes) (hdr : Headers) :
  SplitCompact signed = Ok (p, pl, sg) ->
  base64_Decode p = Some dp ->
  json_UnmarshalHeaders dp = Some hdr ->
  KeyID hdr <> ""%string ->
  jwk_KeyID jwkKey <> KeyID hdr ->
  verifyCompact signed alg (JwkK jwkKey) dst detached
  = (Err (match NewVerifier alg with
          | None => UnsupportedAlgorithm
          | Some _ =>
              match base64_Decode sg with
              | None => SignatureDecodeFailed
              | Some _ => KeyIDMismatch
              end
          end), dst).
Proof.
  intros Hs Hdp Hh Hk Hne.
  destruct (NewVerifier alg) as [v|] eqn:Hv;
    [destruct (base64_Decode sg) as [ds|] eqn:Hds|].
  - unfold verifyCompact.
    rewrite (verifyCompactCore_decoded _ _ _ _ _ _ _ _ _ _ _ Hs Hv Hds Hdp Hh).
    apply (kidMismatch_jwk hdr jwkKey Hk) in Hne. rewrite Hne. reflexivity.
  - unfold verifyCompact, verifyCompactCore.
    rewrite Hs, bind_Ok, Hv. simpl orErr. rewrite bind_Ok, Hds. reflexivity.
  - unfold verifyCompact, verifyCompactCore.
    rewrite Hs, bind_Ok, Hv. reflexivity.
Qed.

(** C10. In compact-form verification, when the protected header carries a
    non-empty key id and the key is a structured key object, the call fails
    with [KeyIDMismatch] exactly when the key's id is not the header's; in
    particular a key without an id fails that way. *)
Theorem verifyCompact_kid_must_equal (signed : bytes) (alg : string)
        (jwkKey : JwkKey) (dst : option Message) (detached : option bytes)
        (p pl sg : bytes) (v : Verifier) (ds dp : bytes) (hdr : Headers) :
  SplitCompact signed = Ok (p, pl, sg) ->
  NewVerifier alg = Some v ->
  base64_Decode sg = Some ds ->
  base64_Decode p = Some dp ->
  json_UnmarshalHeaders dp = Some hdr ->
  KeyID hdr <> ""%string ->
  (jwk_KeyID jwkKey = ""%string ->
   verifyCompact signed alg (JwkK jwkKey) dst detached
   = (Err KeyIDMismatch, dst))
  /\ (fst (verifyCompact signed alg (JwkK jwkKey) dst detached)
      = Err KeyIDMismatch
      <-> jwk_KeyID jwkKey <> KeyID hdr).
Proof.
  intros Hs Hv Hds Hdp Hh Hk. unfold verifyCompact.
  rewrite (verifyCompactCore_decoded _ _ _ _ _ _ _ _ _ _ _ Hs Hv Hds Hdp Hh).
  pose proof (kidMismatch_jwk hdr jwkKey Hk) as Hm.
  split.
  - intros He. assert (Hne : jwk_KeyID jwkKey <> KeyID hdr) by congruence.
    apply Hm in Hne. rewrite Hne. reflexivity.
  - rewrite <- Hm. destruct (kidMismatch hdr (JwkK jwkKey)).
    + simpl. tauto.
    + split; [|discriminate].
      destruct (v _ ds _); [|discriminate].
      destruct (getB64Value hdr);
        [destruct (base64_Decode (effectivePayload pl detached))|];
        simpl; discriminate.
Qed.


(** C4, amended. In compact-form verification, after a successful
    signature check the result is the base64url decoding of the payload
    when field b64 of the protected header is absent or is the boolean
    true, with [PayloadDecodeFailed] when the payload does not decode; for
    any other value of the field, the boolean false or a value that is not
    a boolean, the result is the payload bytes as they are. *)
Theorem verifyCompact_payload_by_b64 (signed : bytes) (alg : string)
        (key : Key) (dst : option Message) (detached : option bytes)
        (p pl sg : bytes) (v : Verifier) (ds dp : bytes) (hdr : Headers) :
  SplitCompact signed = Ok (p, pl, sg) ->
  NewVerifier alg = Some v ->
  base64_Decode sg = Some ds ->
  base64_Decode p = Some dp ->
  json_UnmarshalHeaders dp = Some hdr ->
  kidMismatch hdr key = false ->
  v (p ++ dot :: effectivePayload pl detached) ds key = true ->
  fst (verifyCompact signed alg key dst detached)
  = match Get hdr "b64" with
    | None | Some (VBool true) =>
        orErr (base64_Decode (effectivePayload pl detached))
              PayloadDecodeFailed
    | Some _ => Ok (effectivePayload pl detached)
    end.
Proof.
  intros Hs Hv Hds Hdp Hh Hk Hok. unfold verifyCompact.
  rewrite (verifyCompactCore_decoded _ _ _ _ _ _ _ _ _ _ _ Hs Hv Hds Hdp Hh).
  rewrite Hk, Hok. unfold getB64Value.
  destruct (Get hdr "b64") as [[s|[|]|n|]|]; try reflexivity;
    destruct (base64_Decode (effectivePayload pl detached)); reflexivity.
Qed.

Lemma Verify_json (buf signed : bytes) (alg : string) (key : Key)
      (dst : option Message) (detached : option bytes) :
  bytes_TrimSpace buf = signed ->
  head signed = Some lbrace ->
  Verify buf alg key dst detached = verifyJSON signed alg key dst detached.
Proof.
  intros Ht Hh. unfold Verify. rewrite Ht.
  destruct signed as [|c r]; [discriminate|].
  unfold len. simpl length.
  destruct (Z.eqb_spec (Z.of_nat (S (length r))) 0); [lia|].
  rewrite bool_decide_eq_true_2 by exact Hh. reflexivity.
Qed.

Lemma Verify_compact (buf signed : bytes) (alg : string) (key : Key)
      (dst : option Message) (detached : option bytes) :
  bytes_TrimSpace buf = signed ->
  signed <> [] ->
  head signed <> Some lbrace ->
  Verify buf alg key dst detached = verifyCompact signed alg key dst detached.
Proof.
  intros Ht Hne Hh. unfold Verify. rewrite Ht.
  destruct signed as [|c r]; [congruence|].
  unfold len. simpl length.
  destruct (Z.eqb_spec (Z.of_nat (S (length r))) 0); [lia|].
  rewrite bool_decide_eq_false_2 by exact Hh. reflexivity.
Qed.

Lemma SplitCompact_nonempty (signed p pl sg : bytes) :
  SplitCompact signed = Ok (p, pl, sg) -> signed <> [].
Proof. intros Hs ->. discriminate. Qed.

(** The compact path has no such check: with a payload segment that is
    not empty the detached payload is never looked at. *)
Lemma Verify_compact_detached_ignored (buf signed p pl sg : bytes)
      (alg : string) (key : Key) (dst : option Message) (P : bytes) :
  bytes_TrimSpace buf = signed ->
  head signed <> Some lbrace ->
  SplitCompact signed = Ok (p, pl, sg) ->
  pl <> [] ->
  Verify buf alg key dst (Some P) = Verify buf alg key dst None.
Proof.
  intros Ht Hh Hs Hp.
  pose proof (SplitCompact_nonempty _ _ _ _ Hs) as Hne.
  rewrite !(Verify_compact _ _ _ _ _ _ Ht Hne Hh).
  unfold verifyCompact, verifyCompactCore.
  rewrite Hs, !bind_Ok.
  destruct pl as [|c r]; [congruence|]. reflexivity.
Qed.

(** The JSON path has the check: [Verify] given a message in JSON form
    that carries a non-empty payload, together with a detached payload,
    fails with [AmbiguousPayload] and leaves the sink as it was. *)
Theorem Verify_json_embedded_and_detached (buf signed : bytes)
        (alg : string) (key : Key) (dst : option Message) (P : bytes)
        (v : Verifier) (m : Message) :
  bytes_TrimSpace buf = signed ->
  head signed = Some lbrace ->
  NewVerifier alg = Some v ->
  json_UnmarshalMessage signed = Some m ->
  msg_payload m <> [] ->
  Verify buf alg key dst (Some P) = (Err AmbiguousPayload, dst).
Proof.
  intros Ht Hh Hv Hm Hp.
  rewrite (Verify_json _ _ _ _ _ _ Ht Hh).
  unfold verifyJSON, verifyJSONCore.
  rewrite Hv. simpl orErr. rewrite bind_Ok, Hm. simpl orErr.
  rewrite bind_Ok.
  destruct (msg_payload m) as [|c r]; [congruence|].
  reflexivity.
Qed.

Lemma ParseFrom_firstRune (src rest : bytes) :
  ParseFrom src rest
  = match firstRuneFrom src rest with
    | None => Err InvalidInput
    | Some r => if r =? 123 then parseJSON src else parseCompact src
    end.
Proof.
  induction rest as [|b rest IH]; simpl; [reflexivity|].
  destruct (negb (unicode_IsSpace _)); [reflexivity|exact IH].
Qed.

(** [Parse] by the first rune that is not white space: an opening brace
    selects the JSON form, any other rune the compact form. *)
Lemma Parse_firstRune (src : bytes) :
  Parse src
  = match firstRune src with
    | None => Err InvalidInput
    | Some r => if r =? 123 then parseJSON src else parseCompact src
    end.
Proof. apply ParseFrom_firstRune. Qed.

Lemma parseCompact_Ok (data : bytes) (m : Message) :
  parseCompact data = Ok m ->
  exists p pl sg dp hdr dpl ds,
    SplitCompact data = Ok (p, pl, sg)
    /\ base64_Decode p = Some dp
    /\ json_UnmarshalHeaders dp = Some hdr
    /\ base64_Decode pl = Some dpl
    /\ base64_Decode sg = Some ds
    /\ m = {| msg_payload := dpl;
              msg_signatures :=
                [ {| sig_headers := None; sig_protected := Some hdr;
                     sig_signature := ds |} ];
              msg_b64 := false |}.
Proof.
  intros Hm. unfold parseCompact in Hm.
  destruct (SplitCompact data) as [[[p pl] sg]|e] eqn:Hs; [|discriminate].
  rewrite bind_Ok in Hm. unfold parse in Hm.
  destruct (base64_Decode p) as [dp|] eqn:Hdp; [|discriminate].
  simpl orErr in Hm. rewrite bind_Ok in Hm.
  destruct (json_UnmarshalHeaders dp) as [hdr|] eqn:Hh; [|discriminate].
  simpl orErr in Hm. rewrite bind_Ok in Hm.
  destruct (base64_Decode pl) as [dpl|] eqn:Hdpl; [|discriminate].
  simpl orErr in Hm. rewrite bind_Ok in Hm.
  destruct (base64_Decode sg) as [ds|] eqn:Hds; [|discriminate].
  simpl orErr in Hm. rewrite bind_Ok in Hm.
  injection Hm as <-.
  exists p, pl, sg, dp, hdr, dpl, ds. repeat split; assumption.
Qed.

Lemma parseCompact_bad_payload (data p pl sg : bytes) :
  SplitCompact data = Ok (p, pl, sg) ->
  base64_Decode pl = None ->
  parseCompact data
  = match base64_Decode p with
    | None => Err ProtectedDecodeFailed
    | Some dp =>
        match json_UnmarshalHeaders dp with
        | None => Err HeaderParseFailed
        | Some _ => Err PayloadSegmentDecodeFailed
        end
    end.
Proof.
  intros Hs Hpl. unfold parseCompact. rewrite Hs, bind_Ok. unfold parse.
  destruct (base64_Decode p) as [dp|]; [|reflexivity].
  simpl orErr. rewrite bind_Ok.
  destruct (json_UnmarshalHeaders dp) as [hdr|]; [|reflexivity].
  simpl orErr. rewrite bind_Ok, Hpl. reflexivity.
Qed.

(** C9. [Parse] of an input in compact form, that is one whose first rune
    after white space is not an opening brace, decodes all three segments
    as base64url without looking at the header: a message comes out only
    when the three segments decode, and a payload segment that does not
    decode makes it fail, with the error of the payload when the header is
    readable, also when that header sets b64 to false. *)
Theorem Parse_compact_decodes_all_segments (data : bytes) (r : Z) :
  firstRune data = Some r ->
  r <> 123 ->
  (forall m : Message,
      Parse data = Ok m ->
      exists p pl sg dp hdr dpl ds,
        SplitCompact data = Ok (p, pl, sg)
        /\ base64_Decode p = Some dp
        /\ json_UnmarshalHeaders dp = Some hdr
        /\ base64_Decode pl = Some dpl
        /\ base64_Decode sg = Some ds
        /\ m = {| msg_payload := dpl;
                  msg_signatures :=
                    [ {| sig_headers := None; sig_protected := Some hdr;
                         sig_signature := ds |} ];
                  msg_b64 := false |})
  /\ (forall p pl sg : bytes,
         SplitCompact data = Ok (p, pl, sg) ->
         base64_Decode pl = None ->
         is_ok (Parse data) = false
         /\ forall dp hdr,
              base64_Decode p = Some dp ->
              json_UnmarshalHeaders dp = Some hdr ->
              Get hdr "b64" = Some (VBool false) ->
              Parse data = Err PayloadSegmentDecodeFailed).
Proof.
  intros Hr Hne. rewrite Parse_firstRune, Hr.
  destruct (Z.eqb_spec r 123) as [|_]; [congruence|].
  split; [apply parseCompact_Ok|].
  intros p pl sg Hs Hpl.
  rewrite (parseCompact_bad_payload _ _ _ _ Hs Hpl). split.
  - destruct (base64_Decode p) as [dp|]; [|reflexivity].
    destruct (json_UnmarshalHeaders dp); reflexivity.
  - intros dp hdr -> -> _. reflexivity.
Qed.

Lemma VerifySetFrom_spec (buf : bytes) (set : KeySet) (todo : nat) :
  forall i : nat,
    VerifySetFrom buf set i todo
    = match firstVerified buf (filter (fun k => eligible k = true)
                                      (omap (KeyAt set) (seq i todo))) with
      | Some payload => Ok payload
      | None => Err NoKeyVerified
      end.
Proof.
  induction todo as [|todo IH]; intros i; [reflexivity|].
  simpl. destruct (KeyAt set i) as [key|]; [|apply IH].
  rewrite filter_cons. unfold ForSignature.
  destruct (decide (eligible key = true)) as [He|He]; unfold eligible in He;
    destruct (String.eqb (jwk_Algorithm key) ""),
             (String.eqb (jwk_KeyUsage key) ""),
             (String.eqb (jwk_KeyUsage key) "sig");
    simpl in He |- *; try congruence; try apply IH;
    destruct (fst (Verify buf (jwk_Algorithm key) (JwkK key) None None));
    solve [reflexivity | apply IH].
Qed.

(** C8. [VerifySet] goes through the key collection in order, leaves out
    every key without a declared algorithm and every key whose declared
    usage is present and is not signature use, calls [Verify] with the
    algorithm and the key of each remaining one, returns the payload of the
    first that verifies, and fails with [NoKeyVerified] when none does. *)
Theorem VerifySet_first_eligible_key (buf : bytes) (set : KeySet) :
  VerifySet buf set = VerifySet_spec buf set.
Proof. apply VerifySetFrom_spec. Qed.

End WithCollaborators.
End JwsFacts.

(** ** Facts about the registry *)

Module RegistryFacts.
Import Jws.

Lemma keyTypeToAlgorithms_inserts :
  keyTypeToAlgorithms
  = <[EC := [ES256; ES384; ES512]]>
      (<[RSA := [PS256; PS384; PS512; RS256; RS384; RS512]]>
         (<[OctetSeq := [HS256; HS384; HS512]]>
            (<[OKP := [EdDSA]]> ∅))).
Proof. vm_compute. reflexivity. Qed.

Lemma keyTypeToAlgorithms_lookup (kty : string) :
  keyTypeToAlgorithms !! kty
  = if decide (kty = EC) then Some [ES256; ES384; ES512]
    else if decide (kty = RSA)
         then Some [PS256; PS384; PS512; RS256; RS384; RS512]
    else if decide (kty = OctetSeq) then Some [HS256; HS384; HS512]
    else if decide (kty = OKP) then Some [EdDSA]
    else None.
Proof.
  rewrite keyTypeToAlgorithms_inserts.
  repeat (case_decide;
          [subst; rewrite ?lookup_insert_ne by discriminate;
           apply lookup_insert_eq
          |rewrite lookup_insert_ne by congruence]).
  apply lookup_empty.
Qed.

(** C7, amended. For a key of a recognised shape [AlgorithmsForKey]
    returns the algorithms registered for the key's type, in the order
    [init] registers them: HS256, HS384, HS512 for octet keys; PS256,
    PS384, PS512, RS256, RS384, RS512 for RSA keys, the PS family first;
    ES256, ES384, ES512 for EC keys; EdDSA for OKP keys. A structured key
    of any other type is refused with [UnsupportedKeyType]. *)
Theorem AlgorithmsForKey_table (key : Key) (kty : string) :
  keyTypeOf key = Some kty ->
  (kty = OctetSeq -> AlgorithmsForKey key = Ok [HS256; HS384; HS512])
  /\ (kty = RSA ->
      AlgorithmsForKey key = Ok [PS256; PS384; PS512; RS256; RS384; RS512])
  /\ (kty = EC -> AlgorithmsForKey key = Ok [ES256; ES384; ES512])
  /\ (kty = OKP -> AlgorithmsForKey key = Ok [EdDSA])
  /\ (kty ∉ [OctetSeq; RSA; EC; OKP] ->
      AlgorithmsForKey key = Err UnsupportedKeyType).
Proof.
  intros Hk. unfold AlgorithmsForKey. rewrite Hk.
  rewrite keyTypeToAlgorithms_lookup.
  repeat split; intros Hty.
  - subst. reflexivity.
  - subst. reflexivity.
  - subst. reflexivity.
  - subst. reflexivity.
  - repeat (case_decide; [subst; exfalso; apply Hty; set_solver|]).
    reflexivity.
Qed.

(** Every raw key the type switch knows has one of the four key types. *)
Lemma keyTypeOf_raw (kind : RawKind) (material : bytes) :
  kind <> OtherKind ->
  exists kty, keyTypeOf (RawK kind material) = Some kty
              /\ kty ∈ [OctetSeq; RSA; EC; OKP].
Proof.
  intros Hk. destruct kind; try congruence; simpl; eexists;
    (split; [reflexivity|set_solver]).
Qed.

End RegistryFacts.

(** ** The theorems at concrete messages *)

Module Checks.
Import Split SplitFacts Jws JwsFacts RegistryFacts Ref Examples.

(** The verifier accepts the signature segment of [withKid], the text UA,
    for key [key_k2], and yet verification with that key stops at the key
    ids. *)
Lemma verifyCompact_kid_mismatch_fatal_witness :
  (ds ← decode (B "UA");
   Some (checksumVerifier (B "eyJhbGciOiJIUzI1NiIsImtpZCI6ImsxIn0.aGVsbG8")
                          ds key_k2)) = Some true
  /\ verifyCompact withKid "HS256" key_k2 None None
     = (Err KeyIDMismatch, None).
Proof.
  split; [vm_compute; reflexivity|].
  eapply (verifyCompact_kid_mismatch_fatal
            withKid "HS256" (octKey "k2" "HS256" "sig" (B "secret"))
            None None _ _ _ checksumVerifier).
  - vm_compute. reflexivity.
  - reflexivity.
  - vm_compute. reflexivity.
  - vm_compute. reflexivity.
  - vm_compute. reflexivity.
  - vm_compute. discriminate.
  - vm_compute. discriminate.
  - vm_compute. discriminate.
Defined.

(** A key without an id is refused when the header names one. *)
Lemma verifyCompact_kid_must_equal_witness :
  verifyCompact withKid "HS256" key_nokid None None
  = (Err KeyIDMismatch, None).
Proof.
  edestruct (verifyCompact_kid_must_equal
               withKid "HS256" (octKey "" "HS256" "sig" (B "secret"))
               None None) as [Hempty _].
  - vm_compute. reflexivity.
  - reflexivity.
  - vm_compute. reflexivity.
  - vm_compute. reflexivity.
  - vm_compute. reflexivity.
  - vm_compute. discriminate.
  - apply Hempty. reflexivity.
Defined.


(** Field b64 is the number 1: the payload segment comes back as it is. *)
Lemma verifyCompact_payload_by_b64_witness :
  fst (verifyCompact b64Number "HS256" key_k1 None None)
  = Ok (B "aGVsbG8").
Proof.
  etransitivity.
  - eapply (verifyCompact_payload_by_b64
              b64Number "HS256" key_k1 None None _ _ _ checksumVerifier).
    + vm_compute. reflexivity.
    + reflexivity.
    + vm_compute. reflexivity.
    + vm_compute. reflexivity.
    + vm_compute. reflexivity.
    + vm_compute. reflexivity.
    + vm_compute. reflexivity.
  - vm_compute. reflexivity.
Defined.

(** The message [hello] in JSON form, verified with a detached payload on
    the side. *)
Lemma Verify_json_embedded_and_detached_witness :
  Verify helloJSON "HS256" key_k1 None (Some (B "world"))
  = (Err AmbiguousPayload, None).
Proof.
  eapply (Verify_json_embedded_and_detached
            helloJSON _ "HS256" key_k1 None (B "world") checksumVerifier).
  - vm_compute. reflexivity.
  - vm_compute. reflexivity.
  - reflexivity.
  - vm_compute. reflexivity.
  - vm_compute. discriminate.
Defined.

(** The header of [b64FalseRaw] sets b64 to false and its payload segment
    is not base64url: parsing fails on the payload. *)
Lemma Parse_compact_decodes_all_segments_witness :
  Parse b64FalseRaw = Err PayloadSegmentDecodeFailed.
Proof.
  edestruct (Parse_compact_decodes_all_segments b64FalseRaw) as [_ HP].
  - vm_compute. reflexivity.
  - discriminate.
  - edestruct HP as [_ HE].
    + vm_compute. reflexivity.
    + vm_compute. reflexivity.
    + eapply HE.
      * vm_compute. reflexivity.
      * vm_compute. reflexivity.
      * vm_compute. reflexivity.
Defined.



Lemma AlgorithmsForKey_table_witness :
  AlgorithmsForKey (RawK RsaPublicKey [])
  = Ok [PS256; PS384; PS512; RS256; RS384; RS512].
Proof.
  apply (proj1 (proj2 (AlgorithmsForKey_table (RawK RsaPublicKey []) RSA
                         eq_refl))).
  reflexivity.
Defined.

(** *** Where the code departs from the specification *)


(** C3. The compact path misses the check that the JSON path makes.
    [hello] is a compact message with the payload segment aGVsbG8; given a
    detached payload as well, [Verify] does not fail with
    [AmbiguousPayload]: it succeeds with the embedded payload, as it does
    without the detached payload. The same message in JSON form, given the
    same detached payload, is refused with [AmbiguousPayload]. *)
Lemma compact_ignores_detached_payload :
  SplitCompact hello = Ok (B "eyJhbGciOiJIUzI1NiJ9", B "aGVsbG8", B "2Q")
  /\ fst (Verify hello "HS256" key_k1 None (Some (B "world")))
     = Ok (B "hello")
  /\ fst (Verify hello "HS256" key_k1 None (Some (B "world")))
     <> Err AmbiguousPayload
  /\ Verify hello "HS256" key_k1 None (Some (B "world"))
     = Verify hello "HS256" key_k1 None None
  /\ fst (Verify helloJSON "HS256" key_k1 None (Some (B "world")))
     = Err AmbiguousPayload.
Proof. vm_compute. repeat split; discriminate. Qed.

(** C4 as stated fails. The protected header of [b64Number] has the number
    1 in field b64, which is not an explicit false; the signature is
    accepted and the payload segment comes back without being decoded,
    although it decodes to hello. *)
Lemma b64_not_boolean_gives_raw_payload :
  (exists hdr,
      (dp ← decode (B "eyJhbGciOiJIUzI1NiIsImI2NCI6MX0");
       unmarshalHeaders dp) = Some hdr
      /\ Get hdr "b64" = Some (VNumber 1))
  /\ decode (B "aGVsbG8") = Some (B "hello")
  /\ fst (Verify b64Number "HS256" key_k1 None None) = Ok (B "aGVsbG8")
  /\ fst (Verify b64Number "HS256" key_k1 None None) <> Ok (B "hello").
Proof.
  split.
  - eexists. split; vm_compute; reflexivity.
  - vm_compute. repeat split; discriminate.
Qed.



(** C7 as stated fails. For an RSA key the list does not start with the RS
    family. *)
Lemma rsa_algorithms_start_with_PS :
  AlgorithmsForKey (RawK RsaPublicKey [])
  = Ok [PS256; PS384; PS512; RS256; RS384; RS512]
  /\ AlgorithmsForKey (RawK RsaPublicKey [])
     <> Ok [RS256; RS384; RS512; PS256; PS384; PS512].
Proof. vm_compute. split; [reflexivity|discriminate]. Qed.

(** *** Further examples *)

(** With b64 false in the protected header, an empty payload segment and a
    detached payload, the detached payload comes back as it is. *)
Example detached_payload_raw :
  fst (Verify (B "eyJhbGciOiJIUzI1NiIsImI2NCI6ZmFsc2V9..uQ") "HS256"
              key_k1 None (Some (B "hello")))
  = Ok (B "hello").
Proof. vm_compute. reflexivity. Qed.

(** The key set of section 8 of the specification: the first key is for
    encryption and is left out, the second one verifies. *)
Example VerifySet_enc_then_sig :
  VerifySet hello encThenSig = Ok (B "hello")
  /\ filter (fun k => eligible k = true) (keysInOrder encThenSig)
     = [octKey "s" "HS256" "sig" (B "secret")].
Proof. vm_compute. split; reflexivity. Qed.

(** A message signed for kid k1 verifies with key k1 and with a raw key. *)
Example kid_match_or_raw_key :
  fst (Verify withKid "HS256" key_k1 None None) = Ok (B "hello")
  /\ fst (Verify withKid "HS256" key_raw None None) = Ok (B "hello").
Proof. vm_compute. split; reflexivity. Qed.

(** The sink receives the message when verification succeeds and is left
    alone when it fails. *)
Example sink_is_filled_on_success (m0 : Message) :
  snd (Verify hello "HS256" key_k1 (Some m0) None)
  = Some (compactMessage (B "hello")
                         {[ "alg"%string := VString "HS256" ]} [xd9])
  /\ snd (Verify withKid "HS256" key_k2 (Some m0) None) = Some m0.
Proof. vm_compute. split; reflexivity. Qed.

End Checks.

(** ** More facts about splitting *)

Module SplitExtra.
Import Split SplitFacts SplitString.

Lemma Split_clean (a : bytes) (c : byte) : c ∉ a -> Split a c = [a].
Proof.
  induction a as [|x r IH]; [reflexivity|]. intros Hn.
  apply not_elem_of_cons in Hn as [Hx Hr]. simpl.
  destruct (decide (x = c)); [congruence|]. rewrite (IH Hr). reflexivity.
Qed.

Lemma Split_clean_sep (a b : bytes) (c : byte) :
  c ∉ a -> Split (a ++ c :: b) c = a :: Split b c.
Proof.
  induction a as [|x r IH]; intros Hn; simpl.
  - destruct (decide (c = c)); [reflexivity|congruence].
  - apply not_elem_of_cons in Hn as [Hx Hr].
    destruct (decide (x = c)); [congruence|]. rewrite (IH Hr). reflexivity.
Qed.

Lemma Join_cons (seg : bytes) (rest : list bytes) (c : byte) :
  Join (seg :: rest) c
  = match rest with [] => seg | _ :: _ => seg ++ c :: Join rest c end.
Proof. destruct rest; reflexivity. Qed.

Lemma Split_three_shape (src p pl sg : bytes) (rest : list bytes) :
  Split src dot = p :: pl :: sg :: rest ->
  (dot ∉ p) /\ (dot ∉ pl) /\ (dot ∉ sg)
  /\ src = p ++ dot :: pl ++ dot :: Join (sg :: rest) dot.
Proof.
  intros Hs.
  pose proof (Join_Split src dot) as Hj.
  pose proof (Split_segment_clean src dot) as Hc.
  rewrite Hs in Hj, Hc.
  apply Forall_cons in Hc as [H1 Hc].
  apply Forall_cons in Hc as [H2 Hc].
  apply Forall_cons in Hc as [H3 _].
  repeat (split; [assumption|]).
  rewrite <- Hj. reflexivity.
Qed.

Lemma SplitCompact_Ok_shape_aux (src p pl sg : bytes) :
  SplitCompact src = Ok (p, pl, sg)
  <-> (dot ∉ p) /\ (dot ∉ pl) /\ (dot ∉ sg)
      /\ (src = p ++ dot :: pl ++ dot :: sg
          \/ exists extra, src = p ++ dot :: pl ++ dot :: sg ++ dot :: extra).
Proof.
  rewrite SplitCompact_cases. split.
  - intros Hs.
    destruct (Split src dot) as [|a [|b [|c rest]]] eqn:Es; try discriminate.
    injection Hs as -> -> ->.
    destruct (Split_three_shape _ _ _ _ _ Es) as (H1 & H2 & H3 & Hj).
    repeat (split; [assumption|]).
    rewrite Join_cons in Hj. destruct rest as [|d rest'].
    + left. exact Hj.
    + right. exists (Join (d :: rest') dot). exact Hj.
  - intros (H1 & H2 & H3 & [->| [extra ->]]).
    + rewrite (Split_clean_sep _ _ _ H1), (Split_clean_sep _ _ _ H2),
        (Split_clean _ _ H3). reflexivity.
    + rewrite (Split_clean_sep _ _ _ H1), (Split_clean_sep _ _ _ H2),
        (Split_clean_sep _ _ _ H3). reflexivity.
Qed.

(** X1. [SplitCompact] succeeds with segments [p], [pl], [sg] exactly on
    the inputs made of these three segments, none of which holds a
    separator, joined by separators and followed by nothing or by a
    separator and anything: split and join are inverse on three clean
    segments, and whatever follows a third separator is dropped. *)
Theorem SplitCompact_Ok_shape (src p pl sg : bytes) :
  SplitCompact src = Ok (p, pl, sg)
  <-> (dot ∉ p) /\ (dot ∉ pl) /\ (dot ∉ sg)
      /\ (src = p ++ dot :: pl ++ dot :: sg
          \/ exists extra, src = p ++ dot :: pl ++ dot :: sg ++ dot :: extra).
Proof. apply SplitCompact_Ok_shape_aux. Qed.

Lemma byte_of_ascii_inj (a b : ascii) :
  byte_of_ascii a = byte_of_ascii b -> a = b.
Proof.
  intros E. rewrite <- (ascii_of_byte_of_ascii a), <- (ascii_of_byte_of_ascii b).
  rewrite E. reflexivity.
Qed.

Lemma StringsSplit_bytes (s : string) (c : ascii) :
  map list_byte_of_string (StringsSplit s c)
  = Split (list_byte_of_string s) (byte_of_ascii c).
Proof.
  induction s as [|x r IH]; [reflexivity|].
  change (list_byte_of_string (String x r))
    with (byte_of_ascii x :: list_byte_of_string r).
  simpl StringsSplit. simpl Split.
  destruct (decide (x = c)) as [->|Hx].
  - destruct (decide (byte_of_ascii c = byte_of_ascii c)); [|congruence].
    simpl map. rewrite IH. reflexivity.
  - destruct (decide (byte_of_ascii x = byte_of_ascii c)) as [E|_];
      [apply byte_of_ascii_inj in E; congruence|].
    rewrite <- IH. destruct (StringsSplit r c); reflexivity.
Qed.

(** X2. [SplitCompactString] on a string is [SplitCompact] on the bytes of
    the string: same segments, same failures. *)
Theorem SplitCompactString_bytes (src : string) :
  SplitCompactString src = SplitCompact (list_byte_of_string src).
Proof.
  unfold SplitCompactString, SplitCompact.
  change dot with (byte_of_ascii "."%char).
  rewrite <- StringsSplit_bytes. unfold len. rewrite length_map.
  destruct (StringsSplit src ".") as [|a [|b [|c rest]]]; reflexivity.
Qed.

Lemma readLoop_failed (reads : list (bytes * option ReadErr)) :
  forall st : splitState,
    delivered reads = None -> readLoop reads st = Err ReadFailed.
Proof.
  induction reads as [|[chunk [[|]|]] rest IH]; intros st Hd; simpl in *;
    try discriminate; [reflexivity|].
  apply IH. destruct (delivered rest); [discriminate|reflexivity].
Qed.

(** X3. On a reader that is not in memory, [SplitCompactReader] fails with
    [ReadFailed] exactly when a read reports an error other than end of
    input before end of input is reported; the bytes read until then, and
    those that come with the failing read, play no part. *)
Theorem SplitCompactReader_read_error (reads : list (bytes * option ReadErr)) :
  SplitCompactReader (Stream reads) = Err ReadFailed
  <-> delivered reads = None.
Proof.
  split.
  - intros He. destruct (delivered reads) as [buf|] eqn:Hd; [|reflexivity].
    rewrite (SplitCompactReader_cases _ _ Hd) in He.
    destruct (Split buf dot) as [|p [|pl [|sg [|x rest]]]]; discriminate.
  - intros Hd. unfold SplitCompactReader. simpl.
    rewrite (readLoop_failed _ _ Hd). reflexivity.
Qed.

(** X4. What [SplitCompactReader] returns depends on the bytes the reader
    delivers and not on how the reads cut them: two readers with the same
    content give the same result, on every content. *)
Theorem SplitCompactReader_chunking (r1 r2 : list (bytes * option ReadErr))
        (buf : bytes) :
  delivered r1 = Some buf ->
  delivered r2 = Some buf ->
  SplitCompactReader (Stream r1) = SplitCompactReader (Stream r2).
Proof.
  intros H1 H2.
  rewrite (SplitCompactReader_cases _ _ H1), (SplitCompactReader_cases _ _ H2).
  reflexivity.
Qed.

(** X5. On a reader that is not in memory, [SplitCompactReader] succeeds
    with segments [p], [pl], [sg] exactly when the reader delivers, without
    a read error, these three segments joined by two separators and
    nothing more, none of the segments holding a separator. *)
Theorem SplitCompactReader_Ok_shape (reads : list (bytes * option ReadErr))
        (p pl sg : bytes) :
  SplitCompactReader (Stream reads) = Ok (p, pl, sg)
  <-> (dot ∉ p) /\ (dot ∉ pl) /\ (dot ∉ sg)
      /\ delivered reads = Some (p ++ dot :: pl ++ dot :: sg).
Proof.
  split.
  - intros Hs. destruct (delivered reads) as [buf|] eqn:Hd.
    + rewrite (SplitCompactReader_cases _ _ Hd) in Hs.
      destruct (Split buf dot) as [|a [|b [|c [|x rest]]]] eqn:Es;
        try discriminate.
      injection Hs as -> -> ->.
      destruct (Split_three_shape _ _ _ _ _ Es) as (H1 & H2 & H3 & Hj).
      repeat (split; [assumption|]). rewrite Hj. reflexivity.
    + unfold SplitCompactReader in Hs. simpl in Hs.
      rewrite (readLoop_failed _ _ Hd) in Hs. discriminate.
  - intros (H1 & H2 & H3 & Hd).
    rewrite (SplitCompactReader_cases _ _ Hd).
    rewrite (Split_clean_sep _ _ _ H1), (Split_clean_sep _ _ _ H2),
      (Split_clean _ _ H3). reflexivity.
Qed.

(** A separator and anything after it, appended to an input that
    [SplitCompact] accepts, changes nothing in what [SplitCompact]
    returns. *)
Lemma SplitCompact_trailing (src extra p pl sg : bytes) :
  SplitCompact src = Ok (p, pl, sg) ->
  SplitCompact (src ++ dot :: extra) = Ok (p, pl, sg).
Proof.
  intros Hs. apply SplitCompact_Ok_shape_aux in Hs.
  apply SplitCompact_Ok_shape_aux.
  destruct Hs as (H1 & H2 & H3 & [->|[e ->]]);
    repeat (split; [assumption|]); right.
  - exists extra. rewrite <- !app_assoc. simpl. rewrite <- !app_assoc.
    reflexivity.
  - exists (e ++ dot :: extra).
    repeat (rewrite <- ?app_assoc; simpl). reflexivity.
Qed.

(** What the streaming splitter accepts the eager one accepts, with the
    same segments. *)
Lemma SplitCompactReader_Ok_eager (rdr : Reader) (buf : bytes)
      (t : bytes * bytes * bytes) :
  content rdr = Some buf ->
  SplitCompactReader rdr = Ok t ->
  SplitCompact buf = Ok t.
Proof.
  intros Hc Hs. destruct rdr as [data|reads]; simpl in Hc.
  - injection Hc as ->. exact Hs.
  - rewrite (SplitCompactReader_cases _ _ Hc) in Hs.
    rewrite SplitCompact_cases.
    destruct (Split buf dot) as [|p [|pl [|sg [|x rest]]]];
      try discriminate. exact Hs.
Qed.

End SplitExtra.

(** ** More facts about verification and parsing *)

Module JwsExtra.
Import Split SplitFacts SplitExtra Jws JwsFacts.

Section WithCollaborators.
Context `{Collaborators}.

(** What a successful run of the compact path has gone through. *)
Lemma verifyCompactCore_Ok_inv (signed : bytes) (alg : string) (key : Key)
      (detached : option bytes) (d : bytes) (m : Message) :
  verifyCompactCore signed alg key detached = Ok (d, m) ->
  exists p pl sg v ds dp hdr,
    SplitCompact signed = Ok (p, pl, sg)
    /\ NewVerifier alg = Some v
    /\ base64_Decode sg = Some ds
    /\ base64_Decode p = Some dp
    /\ json_UnmarshalHeaders dp = Some hdr
    /\ kidMismatch hdr key = false
    /\ v (p ++ dot :: effectivePayload pl detached) ds key = true
    /\ (if getB64Value hdr
        then base64_Decode (effectivePayload pl detached) = Some d
        else d = effectivePayload pl detached)
    /\ m = compactMessage d hdr ds.
Proof.
  intros Hc.
  destruct (SplitCompact signed) as [[[p pl] sg]|e] eqn:Hs;
    [|unfold verifyCompactCore in Hc; rewrite Hs in Hc; discriminate].
  destruct (NewVerifier alg) as [v|] eqn:Hv;
    [|unfold verifyCompactCore in Hc; rewrite Hs, bind_Ok, Hv in Hc;
      discriminate].
  destruct (base64_Decode sg) as [ds|] eqn:Hds;
    [|unfold verifyCompactCore in Hc; rewrite Hs, bind_Ok, Hv in Hc;
      simpl orErr in Hc; rewrite bind_Ok, Hds in Hc; discriminate].
  destruct (base64_Decode p) as [dp|] eqn:Hdp;
    [|unfold verifyCompactCore in Hc; rewrite Hs, bind_Ok, Hv in Hc;
      simpl orErr in Hc; rewrite bind_Ok, Hds in Hc;
      simpl orErr in Hc; rewrite bind_Ok, Hdp in Hc; discriminate].
  destruct (json_UnmarshalHeaders dp) as [hdr|] eqn:Hh;
    [|unfold verifyCompactCore in Hc; rewrite Hs, bind_Ok, Hv in Hc;
      simpl orErr in Hc; rewrite bind_Ok, Hds in Hc;
      simpl orErr in Hc; rewrite bind_Ok, Hdp in Hc;
      simpl orErr in Hc; rewrite bind_Ok, Hh in Hc; discriminate].
  rewrite (verifyCompactCore_decoded _ _ _ _ _ _ _ _ _ _ _ Hs Hv Hds Hdp Hh)
    in Hc.
  exists p, pl, sg, v, ds, dp, hdr.
  destruct (kidMismatch hdr key); [discriminate|].
  destruct (v _ ds key); [|discriminate].
  destruct (getB64Value hdr).
  - destruct (base64_Decode (effectivePayload pl detached)) as [d'|];
      [|discriminate].
    injection Hc as <- <-. repeat split; reflexivity || assumption.
  - injection Hc as <- <-. repeat split; reflexivity || assumption.
Qed.

Lemma store_fst {r : Result (bytes * Message)} {dst : option Message}
      (d : bytes) :
  fst (store dst r) = Ok d -> exists m, r = Ok (d, m).
Proof.
  destruct r as [[d' m]|e]; simpl; [|discriminate].
  intros [= ->]. eauto.
Qed.

(** X6. A successful compact verification has a cause: the segments were
    split, the verifier for the algorithm was made and accepted the decoded
    signature over the protected segment, a separator and the payload, the
    key-id test passed, and the result is that payload, decoded or not as
    field b64 of the decoded protected header says. *)
Theorem verifyCompact_sound (signed : bytes) (alg : string) (key : Key)
        (dst : option Message) (detached : option bytes) (d : bytes) :
  fst (verifyCompact signed alg key dst detached) = Ok d ->
  exists p pl sg v ds dp hdr,
    SplitCompact signed = Ok (p, pl, sg)
    /\ NewVerifier alg = Some v
    /\ base64_Decode sg = Some ds
    /\ base64_Decode p = Some dp
    /\ json_UnmarshalHeaders dp = Some hdr
    /\ kidMismatch hdr key = false
    /\ v (p ++ dot :: effectivePayload pl detached) ds key = true
    /\ (if getB64Value hdr
        then base64_Decode (effectivePayload pl detached) = Some d
        else d = effectivePayload pl detached).
Proof.
  intros Hok. apply store_fst in Hok as [m Hc].
  destruct (verifyCompactCore_Ok_inv _ _ _ _ _ _ Hc)
    as (p & pl & sg & v & ds & dp & hdr & ? & ? & ? & ? & ? & ? & ? & ? & _).
  exists p, pl, sg, v, ds, dp, hdr. repeat split; assumption.
Qed.

(** X7. The compact path does not see what follows a third separator:
    verification and parsing of an accepted input give the same result
    when a separator and any bytes are appended to it. *)
Theorem compact_trailing_segments_unseen (signed extra p pl sg : bytes)
        (alg : string) (key : Key) (dst : option Message)
        (detached : option bytes) :
  SplitCompact signed = Ok (p, pl, sg) ->
  verifyCompact (signed ++ dot :: extra) alg key dst detached
  = verifyCompact signed alg key dst detached
  /\ parseCompact (signed ++ dot :: extra) = parseCompact signed.
Proof.
  intros Hs. pose proof (SplitCompact_trailing _ extra _ _ _ Hs) as Hs'.
  unfold verifyCompact, verifyCompactCore, parseCompact.
  rewrite Hs, Hs'. split; reflexivity.
Qed.

(** [Verify] as one expression over the two paths. *)
Lemma Verify_cases (buf : bytes) (alg : string) (key : Key)
      (dst : option Message) (detached : option bytes) :
  Verify buf alg key dst detached
  = if len (bytes_TrimSpace buf) =? 0 then (Err EmptyInput, dst)
    else store dst
           (if bool_decide (head (bytes_TrimSpace buf) = Some lbrace)
            then verifyJSONCore (bytes_TrimSpace buf) alg key detached
            else verifyCompactCore (bytes_TrimSpace buf) alg key detached).
Proof.
  unfold Verify, verifyJSON, verifyCompact.
  destruct (len (bytes_TrimSpace buf) =? 0); [reflexivity|].
  destruct (bool_decide _); reflexivity.
Qed.

(** What the loop over the signatures returns. *)
Lemma verifySignatures_Ok_inv (v : Verifier) (payload : bytes) (key : Key)
      (m : Message) (sigs : list Signature) (d : bytes) (m' : Message) :
  verifySignatures v payload key m sigs = Ok (d, m') ->
  d = msg_payload m /\ m' = m
  /\ exists sig pj,
      sig ∈ sigs
      /\ json_MarshalHeaders (sig_protected sig) = Some pj
      /\ v (base64_EncodeToString pj ++ dot :: payload)
           (sig_signature sig) key = true.
Proof.
  induction sigs as [|sig rest IH]; simpl; [discriminate|].
  intros Hv.
  assert (Hrest : verifySignatures v payload key m rest = Ok (d, m') ->
                  d = msg_payload m /\ m' = m
                  /\ exists sig0 pj,
                      sig0 ∈ sig :: rest
                      /\ json_MarshalHeaders (sig_protected sig0) = Some pj
                      /\ v (base64_EncodeToString pj ++ dot :: payload)
                           (sig_signature sig0) key = true).
  { intros Hr. destruct (IH Hr) as (? & ? & s0 & pj & ? & ? & ?).
    repeat split; try assumption. exists s0, pj.
    repeat split; try assumption. apply elem_of_cons. right. assumption. }
  match type of Hv with
  | (if ?c then _ else _) = _ => destruct c; [exact (Hrest Hv)|]
  end.
  destruct (json_MarshalHeaders (sig_protected sig)) as [pj|] eqn:Hm;
    [|discriminate].
  simpl orErr in Hv. rewrite bind_Ok in Hv.
  destruct (v _ (sig_signature sig) key) eqn:Hacc; [|exact (Hrest Hv)].
  injection Hv as <- <-. repeat split. exists sig, pj.
  repeat split; try assumption. apply elem_of_cons. left. reflexivity.
Qed.

Lemma verifySignatures_Err_inv (v : Verifier) (payload : bytes) (key : Key)
      (m : Message) (sigs : list Signature) (e : Error) :
  verifySignatures v payload key m sigs = Err e ->
  e = NoValidSignature \/ e = MarshalProtectedFailed.
Proof.
  induction sigs as [|sig rest IH]; simpl; [intros [= <-]; left; reflexivity|].
  intros Hv.
  match type of Hv with
  | (if ?c then _ else _) = _ => destruct c; [exact (IH Hv)|]
  end.
  destruct (json_MarshalHeaders (sig_protected sig)) as [pj|];
    [|injection Hv as <-; right; reflexivity].
  simpl orErr in Hv. rewrite bind_Ok in Hv.
  destruct (v _ (sig_signature sig) key); [discriminate|exact (IH Hv)].
Qed.

(** What a successful run of the JSON path has gone through. *)
Lemma verifyJSONCore_Ok_inv (signed : bytes) (alg : string) (key : Key)
      (detached : option bytes) (d : bytes) (m' : Message) :
  verifyJSONCore signed alg key detached = Ok (d, m') ->
  exists v m sig pj,
    NewVerifier alg = Some v
    /\ json_UnmarshalMessage signed = Some m
    /\ (detached = None \/ msg_payload m = [])
    /\ d = match detached with Some P => P | None => msg_payload m end
    /\ msg_payload m' = d
    /\ msg_signatures m' = msg_signatures m
    /\ sig ∈ msg_signatures m
    /\ json_MarshalHeaders (sig_protected sig) = Some pj
    /\ v (base64_EncodeToString pj
           ++ dot :: (if msg_b64 m then base64_EncodeToString d else d))
         (sig_signature sig) key = true.
Proof.
  unfold verifyJSONCore. intros Hc.
  destruct (NewVerifier alg) as [v|]; [|discriminate].
  simpl orErr in Hc. rewrite bind_Ok in Hc.
  destruct (json_UnmarshalMessage signed) as [m|]; [|discriminate].
  simpl orErr in Hc. rewrite bind_Ok in Hc.
  exists v, m.
  destruct detached as [P|].
  - rewrite (bool_decide_eq_true_2 (is_Some (Some P))) in Hc by eauto.
    rewrite andb_true_r in Hc.
    destruct (Z.eqb_spec (len (msg_payload m)) 0) as [Hl|Hl];
      [|discriminate].
    simpl negb in Hc. cbv iota in Hc.
    assert (Hp : msg_payload m = [])
      by (destruct (msg_payload m); [reflexivity|unfold len in Hl;
                                                 simpl in Hl; lia]).
    apply verifySignatures_Ok_inv in Hc
      as (-> & -> & sig & pj & Hin & Hm & Hacc).
    exists sig, pj. simpl in *. repeat split; auto.
  - replace (negb (len (msg_payload m) =? 0) && bool_decide (is_Some None))
      with false in Hc
      by (rewrite bool_decide_eq_false_2 by (intros [? ?]; discriminate);
          rewrite andb_false_r; reflexivity).
    apply verifySignatures_Ok_inv in Hc
      as (-> & -> & sig & pj & Hin & Hm & Hacc).
    exists sig, pj. repeat split; auto.
Qed.

(** X8. A successful JSON verification has a cause: the verifier for the
    algorithm was made, the input unmarshalled to a message, and the
    verifier accepted the signature of one of its signatures over the
    base64url text of that signature's protected header, a separator and
    the payload, itself in base64url when the message says so. The result
    is the detached payload when one is given, in which case the message
    carries none, and the payload of the message otherwise. *)
Theorem verifyJSON_sound (signed : bytes) (alg : string) (key : Key)
        (dst : option Message) (detached : option bytes) (d : bytes) :
  fst (verifyJSON signed alg key dst detached) = Ok d ->
  exists v m sig pj,
    NewVerifier alg = Some v
    /\ json_UnmarshalMessage signed = Some m
    /\ (detached = None \/ msg_payload m = [])
    /\ d = match detached with Some P => P | None => msg_payload m end
    /\ sig ∈ msg_signatures m
    /\ json_MarshalHeaders (sig_protected sig) = Some pj
    /\ v (base64_EncodeToString pj
           ++ dot :: (if msg_b64 m then base64_EncodeToString d else d))
         (sig_signature sig) key = true.
Proof.
  intros Hok. apply store_fst in Hok as [m' Hc].
  destruct (verifyJSONCore_Ok_inv _ _ _ _ _ _ Hc)
    as (v & m & sig & pj & ? & ? & ? & ? & _ & _ & ? & ? & ?).
  exists v, m, sig, pj. repeat split; assumption.
Qed.

(** X9. [Verify] and its sink: a failed call leaves the sink as it was; a
    successful call with a sink stores a message whose payload is the
    payload returned; a call without a sink has none afterwards. *)
Theorem Verify_sink (buf : bytes) (alg : string) (key : Key)
        (dst : option Message) (detached : option bytes) :
  (forall e, fst (Verify buf alg key dst detached) = Err e ->
             snd (Verify buf alg key dst detached) = dst)
  /\ (forall d, fst (Verify buf alg key dst detached) = Ok d ->
                match dst with
                | Some _ =>
                    exists m, snd (Verify buf alg key dst detached) = Some m
                              /\ msg_payload m = d
                | None => snd (Verify buf alg key dst detached) = None
                end).
Proof.
  rewrite Verify_cases.
  destruct (len (bytes_TrimSpace buf) =? 0);
    [split; [reflexivity|discriminate]|].
  destruct (bool_decide (head (bytes_TrimSpace buf) = Some lbrace)).
  - destruct (verifyJSONCore _ alg key detached) as [[d m]|e] eqn:Hc; simpl.
    + split; [discriminate|]. intros d' [= <-].
      destruct (verifyJSONCore_Ok_inv _ _ _ _ _ _ Hc)
        as (? & ? & ? & ? & _ & _ & _ & _ & Hp & _).
      destruct dst; [eauto|reflexivity].
    + split; [reflexivity|discriminate].
  - destruct (verifyCompactCore _ alg key detached) as [[d m]|e] eqn:Hc; simpl.
    + split; [discriminate|]. intros d' [= <-].
      destruct (verifyCompactCore_Ok_inv _ _ _ _ _ _ Hc)
        as (? & ? & ? & ? & ? & ? & ? & _ & _ & _ & _ & _ & _ & _ & _ & ->).
      destruct dst; [eexists; split; reflexivity|reflexivity].
    + split; [reflexivity|discriminate].
Qed.

Lemma kidMismatch_true_inv (hdr : Headers) (key : Key) :
  kidMismatch hdr key = true ->
  exists k, key = JwkK k /\ KeyID hdr <> ""%string
            /\ jwk_KeyID k <> KeyID hdr.
Proof.
  unfold kidMismatch. intros Hk. apply andb_prop in Hk as [H1 H2].
  destruct key as [k|]; [|discriminate]. exists k.
  destruct (String.eqb_spec (KeyID hdr) ""); [discriminate|].
  destruct (String.eqb_spec (jwk_KeyID k) (KeyID hdr)); [discriminate|].
  auto.
Qed.

Lemma kidMismatch_false_inv (hdr : Headers) (k : JwkKey) :
  kidMismatch hdr (JwkK k) = false ->
  KeyID hdr <> ""%string ->
  jwk_KeyID k = KeyID hdr.
Proof.
  unfold kidMismatch. intros Hk Hh.
  destruct (String.eqb_spec (KeyID hdr) ""); [congruence|].
  destruct (String.eqb_spec (jwk_KeyID k) (KeyID hdr)); [assumption|].
  discriminate.
Qed.

Lemma verifyCompactCore_KeyIDMismatch_inv (signed : bytes) (alg : string)
      (key : Key) (detached : option bytes) :
  verifyCompactCore signed alg key detached = Err KeyIDMismatch ->
  exists p pl sg dp hdr,
    SplitCompact signed = Ok (p, pl, sg)
    /\ base64_Decode p = Some dp
    /\ json_UnmarshalHeaders dp = Some hdr
    /\ kidMismatch hdr key = true.
Proof.
  intros Hc.
  destruct (SplitCompact signed) as [[[p pl] sg]|e] eqn:Hs.
  2:{ unfold verifyCompactCore in Hc. rewrite Hs in Hc.
      unfold SplitCompact in Hs.
      destruct (len (Split signed dot) <? 3); [|discriminate].
      injection Hs as <-. discriminate. }
  destruct (NewVerifier alg) as [v|] eqn:Hv;
    [|unfold verifyCompactCore in Hc; rewrite Hs, bind_Ok, Hv in Hc;
      discriminate].
  destruct (base64_Decode sg) as [ds|] eqn:Hds;
    [|unfold verifyCompactCore in Hc; rewrite Hs, bind_Ok, Hv in Hc;
      simpl orErr in Hc; rewrite bind_Ok, Hds in Hc; discriminate].
  destruct (base64_Decode p) as [dp|] eqn:Hdp;
    [|unfold verifyCompactCore in Hc; rewrite Hs, bind_Ok, Hv in Hc;
      simpl orErr in Hc; rewrite bind_Ok, Hds in Hc;
      simpl orErr in Hc; rewrite bind_Ok, Hdp in Hc; discriminate].
  destruct (json_UnmarshalHeaders dp) as [hdr|] eqn:Hh;
    [|unfold verifyCompactCore in Hc; rewrite Hs, bind_Ok, Hv in Hc;
      simpl orErr in Hc; rewrite bind_Ok, Hds in Hc;
      simpl orErr in Hc; rewrite bind_Ok, Hdp in Hc;
      simpl orErr in Hc; rewrite bind_Ok, Hh in Hc; discriminate].
  rewrite (verifyCompactCore_decoded _ _ _ _ _ _ _ _ _ _ _ Hs Hv Hds Hdp Hh)
    in Hc.
  exists p, pl, sg, dp, hdr. repeat split; try assumption.
  destruct (kidMismatch hdr key); [reflexivity|].
  destruct (v _ ds key); [|discriminate].
  destruct (getB64Value hdr);
    [destruct (base64_Decode (effectivePayload pl detached))|];
    discriminate.
Qed.

Lemma verifyJSONCore_not_KeyIDMismatch (signed : bytes) (alg : string)
      (key : Key) (detached : option bytes) :
  verifyJSONCore signed alg key detached <> Err KeyIDMismatch.
Proof.
  unfold verifyJSONCore. intros Hc.
  destruct (NewVerifier alg) as [v|]; [|discriminate].
  simpl orErr in Hc. rewrite bind_Ok in Hc.
  destruct (json_UnmarshalMessage signed) as [m|]; [|discriminate].
  simpl orErr in Hc. rewrite bind_Ok in Hc.
  destruct (negb _ && _); [discriminate|].
  apply verifySignatures_Err_inv in Hc as [|]; discriminate.
Qed.

(** X10. [Verify] fails with [KeyIDMismatch] only on the compact path, only
    for a structured key, and only when the decoded protected header
    carries a key id that is not the key's: a raw key, a JSON message or a
    header without key id never gives that error. *)
Theorem Verify_KeyIDMismatch_only_if (buf : bytes) (alg : string) (key : Key)
        (dst : option Message) (detached : option bytes) :
  fst (Verify buf alg key dst detached) = Err KeyIDMismatch ->
  head (bytes_TrimSpace buf) <> Some lbrace
  /\ exists k p pl sg dp hdr,
      key = JwkK k
      /\ SplitCompact (bytes_TrimSpace buf) = Ok (p, pl, sg)
      /\ base64_Decode p = Some dp
      /\ json_UnmarshalHeaders dp = Some hdr
      /\ KeyID hdr <> ""%string
      /\ jwk_KeyID k <> KeyID hdr.
Proof.
  rewrite Verify_cases.
  destruct (len (bytes_TrimSpace buf) =? 0); [discriminate|].
  destruct (bool_decide_reflect (head (bytes_TrimSpace buf) = Some lbrace))
    as [Hh|Hh].
  - intros Hc. exfalso.
    destruct (verifyJSONCore _ alg key detached) as [[d m]|e] eqn:Hj;
      [discriminate|].
    simpl in Hc. injection Hc as ->.
    exact (verifyJSONCore_not_KeyIDMismatch _ _ _ _ Hj).
  - intros Hc. split; [exact Hh|].
    destruct (verifyCompactCore _ alg key detached) as [[d m]|e] eqn:Hv;
      [discriminate|].
    simpl in Hc. injection Hc as ->.
    destruct (verifyCompactCore_KeyIDMismatch_inv _ _ _ _ Hv)
      as (p & pl & sg & dp & hdr & ? & ? & ? & Hk).
    destruct (kidMismatch_true_inv _ _ Hk) as (k & -> & ? & ?).
    exists k, p, pl, sg, dp, hdr. repeat split; assumption.
Qed.

Lemma verifySignatures_all_skipped (v : Verifier) (payload : bytes)
      (k : JwkKey) (m : Message) (sigs : list Signature) :
  Forall (fun sig => exists hdr, sig_headers sig = Some hdr
                                 /\ KeyID hdr <> ""%string
                                 /\ jwk_KeyID k <> KeyID hdr) sigs ->
  verifySignatures v payload (JwkK k) m sigs = Err NoValidSignature.
Proof.
  induction 1 as [|sig rest (hdr & Hh & Hne & Hk) _ IH]; [reflexivity|].
  simpl. rewrite Hh.
  destruct (String.eqb_spec (KeyID hdr) ""); [congruence|].
  destruct (String.eqb_spec (jwk_KeyID k) (KeyID hdr)); [congruence|].
  simpl. exact IH.
Qed.

(** X11. On the JSON path a key-id mismatch is not fatal and is judged on
    the unprotected header: a signature whose unprotected header names a
    key id other than that of the structured key is passed over. When every
    signature of the message is such, the call fails with
    [NoValidSignature] whatever the verifier would answer. *)
Theorem verifyJSON_kid_mismatch_skips (signed : bytes) (alg : string)
        (k : JwkKey) (dst : option Message) (detached : option bytes)
        (v : Verifier) (m : Message) :
  NewVerifier alg = Some v ->
  json_UnmarshalMessage signed = Some m ->
  (detached = None \/ msg_payload m = []) ->
  Forall (fun sig => exists hdr, sig_headers sig = Some hdr
                                 /\ KeyID hdr <> ""%string
                                 /\ jwk_KeyID k <> KeyID hdr)
         (msg_signatures m) ->
  verifyJSON signed alg (JwkK k) dst detached = (Err NoValidSignature, dst).
Proof.
  intros Hv Hm Hd Hall. unfold verifyJSON, verifyJSONCore.
  rewrite Hv. simpl orErr. rewrite bind_Ok, Hm. simpl orErr. rewrite bind_Ok.
  assert (Hamb : negb (len (msg_payload m) =? 0)
                 && bool_decide (is_Some detached) = false).
  { destruct Hd as [->| ->].
    - rewrite bool_decide_eq_false_2 by (intros [? ?]; discriminate).
      apply andb_false_r.
    - reflexivity. }
  rewrite Hamb.
  destruct detached as [P|]; simpl msg_signatures;
    rewrite (verifySignatures_all_skipped _ _ _ _ _ Hall); reflexivity.
Qed.

Lemma VerifySetFrom_outcome (buf : bytes) (set : KeySet) (todo : nat) :
  forall i : nat,
    match VerifySetFrom buf set i todo with
    | Ok d =>
        exists j key,
          (i <= j < i + todo)%nat /\ (KeyAt set j = Some key /\ eligible key = true)
          /\ fst (Verify buf (jwk_Algorithm key) (JwkK key) None None) = Ok d
          /\ forall j' key',
              (i <= j' < j)%nat -> (KeyAt set j' = Some key' /\ eligible key' = true) ->
              is_ok (fst (Verify buf (jwk_Algorithm key') (JwkK key')
                                 None None)) = false
    | Err e =>
        e = NoKeyVerified
        /\ forall j key,
            (i <= j < i + todo)%nat -> (KeyAt set j = Some key /\ eligible key = true) ->
            is_ok (fst (Verify buf (jwk_Algorithm key) (JwkK key)
                               None None)) = false
    end.
Proof.
  induction todo as [|todo IH]; intros i; simpl.
  - split; [reflexivity|]. intros; lia.
  - assert (Hskip :
      (forall key, (KeyAt set i = Some key /\ eligible key = true) ->
                   is_ok (fst (Verify buf (jwk_Algorithm key) (JwkK key)
                                      None None)) = false) ->
      match VerifySetFrom buf set (S i) todo with
      | Ok d =>
          exists j key,
            (i <= j < i + S todo)%nat /\ (KeyAt set j = Some key /\ eligible key = true)
            /\ fst (Verify buf (jwk_Algorithm key) (JwkK key) None None)
               = Ok d
            /\ forall j' key',
                (i <= j' < j)%nat -> (KeyAt set j' = Some key' /\ eligible key' = true) ->
                is_ok (fst (Verify buf (jwk_Algorithm key') (JwkK key')
                                   None None)) = false
      | Err e =>
          e = NoKeyVerified
          /\ forall j key,
              (i <= j < i + S todo)%nat -> (KeyAt set j = Some key /\ eligible key = true) ->
              is_ok (fst (Verify buf (jwk_Algorithm key) (JwkK key)
                                 None None)) = false
      end).
    { intros Hi. specialize (IH (S i)).
      destruct (VerifySetFrom buf set (S i) todo) as [d|e].
      - destruct IH as (j & key & Hj & Ht & Hv & Hfirst).
        exists j, key. split; [lia|]. split; [exact Ht|].
        split; [exact Hv|].
        intros j' key' Hj' Ht'.
        destruct (decide (j' = i)) as [->|]; [apply Hi, Ht'|].
        apply (Hfirst j'); [lia|assumption].
      - destruct IH as [-> Hall]. split; [reflexivity|].
        intros j key Hj Ht.
        destruct (decide (j = i)) as [->|]; [apply Hi, Ht|].
        apply (Hall j); [lia|assumption]. }
    destruct (KeyAt set i) as [key|] eqn:Hk.
    2:{ apply Hskip. intros key [Hk' _]. congruence. }
    unfold ForSignature.
    destruct (String.eqb (jwk_Algorithm key) "") eqn:Ea.
    { apply Hskip. intros key' [Hk' He].
      assert (key' = key) as -> by congruence.
      unfold eligible in He. rewrite Ea in He. discriminate. }
    destruct (String.eqb (jwk_KeyUsage key) "") eqn:Eu;
      destruct (String.eqb (jwk_KeyUsage key) "sig") eqn:Es; simpl.
    4:{ apply Hskip. intros key' [Hk' He].
        assert (key' = key) as -> by congruence.
        unfold eligible in He. rewrite Ea, Eu, Es in He. discriminate. }
    all: destruct (fst (Verify buf (jwk_Algorithm key) (JwkK key) None None))
      as [d|e] eqn:Hv;
      [exists i, key; split; [lia|]; split;
         [split; [assumption|unfold eligible; rewrite Ea, Eu, Es; reflexivity]
         |split; [assumption|intros; lia]]
      |apply Hskip; intros key' [Hk' _];
       assert (key' = key) as -> by congruence; rewrite Hv; reflexivity].
Qed.

(** X12. [VerifySet] succeeds exactly through the first key of the
    collection that declares an algorithm, is not kept for another use
    than signatures, and with which [Verify] succeeds: the payload is the
    one [Verify] returns with that key, and every such key before it was
    refused. It fails, always with [NoKeyVerified], only when [Verify]
    refuses every such key of the collection. *)
Theorem VerifySet_outcome (buf : bytes) (set : KeySet) :
  (forall d,
      VerifySet buf set = Ok d ->
      exists j key,
        (j < Len set)%nat /\ KeyAt set j = Some key /\ eligible key = true
        /\ fst (Verify buf (jwk_Algorithm key) (JwkK key) None None) = Ok d
        /\ forall j' key',
            (j' < j)%nat -> KeyAt set j' = Some key' ->
            eligible key' = true ->
            is_ok (fst (Verify buf (jwk_Algorithm key') (JwkK key')
                               None None)) = false)
  /\ (forall e,
         VerifySet buf set = Err e ->
         e = NoKeyVerified
         /\ forall j key,
             (j < Len set)%nat -> KeyAt set j = Some key ->
             eligible key = true ->
             is_ok (fst (Verify buf (jwk_Algorithm key) (JwkK key)
                                None None)) = false).
Proof.
  unfold VerifySet.
  pose proof (VerifySetFrom_outcome buf set (Len set) 0%nat) as Ho.
  destruct (VerifySetFrom buf set 0 (Len set)) as [d|e].
  - split; [|discriminate]. intros d' [= <-].
    destruct Ho as (j & key & Hj & [Hk He] & Hv & Hfirst).
    exists j, key. repeat split; try assumption; try lia.
    intros j' key' Hj' Hk' He'. apply (Hfirst j'); [lia|split; assumption].
  - split; [discriminate|]. intros e' [= <-].
    destruct Ho as [-> Hall]. split; [reflexivity|].
    intros j key Hj Hk He. apply (Hall j); [lia|split; assumption].
Qed.

Lemma keysInOrder_from (pre keys : list JwkKey) :
  omap (fun i => (pre ++ keys) !! i) (seq (length pre) (length keys)) = keys.
Proof.
  revert pre. induction keys as [|k keys IH]; intros pre; [reflexivity|].
  simpl seq. simpl omap.
  rewrite (list_lookup_middle pre keys k (length pre) eq_refl).
  f_equal. specialize (IH (pre ++ [k])).
  rewrite <- app_assoc, length_app in IH. simpl in IH.
  replace (length pre + 1)%nat with (S (length pre)) in IH by lia.
  exact IH.
Qed.

Lemma keysInOrder_setOfList (keys : list JwkKey) :
  keysInOrder (setOfList keys) = keys.
Proof. apply (keysInOrder_from [] keys). Qed.

(** X13. The keys [VerifySet] leaves out play no part: on a collection
    given as a list, the result is the same after the keys without a
    declared algorithm and those declared for another use than signatures
    have been removed from the list. *)
Theorem VerifySet_filter (buf : bytes) (keys : list JwkKey) :
  VerifySet buf (setOfList keys)
  = VerifySet buf (setOfList (filter (fun k => eligible k = true) keys)).
Proof.
  unfold VerifySet.
  rewrite !VerifySetFrom_spec.
  change (omap (KeyAt (setOfList keys)) (seq 0 (Len (setOfList keys))))
    with (keysInOrder (setOfList keys)).
  change (omap (KeyAt (setOfList (filter (fun k => eligible k = true) keys)))
               (seq 0 (Len (setOfList
                              (filter (fun k => eligible k = true) keys)))))
    with (keysInOrder (setOfList (filter (fun k => eligible k = true) keys))).
  rewrite !keysInOrder_setOfList.
  rewrite list_filter_filter.
  rewrite (list_filter_iff (fun a => eligible a = true /\ eligible a = true)
                           (fun k => eligible k = true)) by tauto.
  reflexivity.
Qed.

(** X14. As the comment of [VerifySet] says, a signature that asks for a
    key id is verified only by a key of that id: when [VerifySet] succeeds
    on a compact message whose decoded protected header carries a key id,
    the collection holds, at a position tried, a key with that id with
    which [Verify] returns the same payload. *)
Theorem VerifySet_kid (buf signed p pl sg dp : bytes) (hdr : Headers)
        (set : KeySet) (d : bytes) :
  VerifySet buf set = Ok d ->
  bytes_TrimSpace buf = signed ->
  head signed <> Some lbrace ->
  SplitCompact signed = Ok (p, pl, sg) ->
  base64_Decode p = Some dp ->
  json_UnmarshalHeaders dp = Some hdr ->
  KeyID hdr <> ""%string ->
  exists j key,
    (j < Len set)%nat /\ KeyAt set j = Some key /\ eligible key = true
    /\ jwk_KeyID key = KeyID hdr
    /\ fst (Verify buf (jwk_Algorithm key) (JwkK key) None None) = Ok d.
Proof.
  intros Hok Ht Hh Hs Hdp Hhdr Hk. unfold VerifySet in Hok.
  pose proof (VerifySetFrom_outcome buf set (Len set) 0%nat) as Ho.
  rewrite Hok in Ho.
  destruct Ho as (j & key & Hj & [Hkey He] & Hv & _).
  exists j, key. repeat split; try assumption; try lia.
  pose proof (SplitCompact_nonempty _ _ _ _ Hs) as Hne.
  rewrite (Verify_compact _ _ _ _ _ _ Ht Hne Hh) in Hv.
  apply store_fst in Hv as [m Hc].
  destruct (verifyCompactCore_Ok_inv _ _ _ _ _ _ Hc)
    as (p' & pl' & sg' & v & ds & dp' & hdr' & Hs' & _ & _ & Hdp' & Hh'
        & Hkid & _).
  rewrite Hs in Hs'. injection Hs' as <- <- <-.
  rewrite Hdp in Hdp'. injection Hdp' as <-.
  rewrite Hhdr in Hh'. injection Hh' as <-.
  apply (kidMismatch_false_inv _ _ Hkid Hk).
Qed.

(** The rune the loop of [Parse] judges a byte by. *)
Lemma firstRuneFrom_None (src rest : bytes) :
  firstRuneFrom src rest = None
  <-> Forall (fun b => unicode_IsSpace
                         (if Z.of_N (Byte.to_N b) >=? 128
                          then utf8_DecodeRune src
                          else Z.of_N (Byte.to_N b)) = true) rest.
Proof.
  induction rest as [|b rest IH]; simpl.
  - split; [constructor|reflexivity].
  - destruct (unicode_IsSpace _) eqn:Hsp; simpl.
    + rewrite IH. split; [intros; constructor; assumption|].
      intros Hf. apply Forall_cons in Hf as [_ Hf]. exact Hf.
    + split; [discriminate|]. intros Hf.
      apply Forall_cons in Hf as [Hb _]. congruence.
Qed.

Lemma parseCompact_not_InvalidInput (data : bytes) :
  parseCompact data <> Err InvalidInput.
Proof.
  unfold parseCompact, parse. rewrite SplitCompact_cases.
  destruct (Split data dot) as [|p [|pl [|sg rest]]]; try discriminate.
  rewrite bind_Ok.
  destruct (base64_Decode p) as [dp|]; [|discriminate].
  simpl orErr. rewrite bind_Ok.
  destruct (json_UnmarshalHeaders dp); [|discriminate].
  simpl orErr. rewrite bind_Ok.
  destruct (base64_Decode pl); [|discriminate].
  simpl orErr. rewrite bind_Ok.
  destruct (base64_Decode sg); discriminate.
Qed.

(** X15. [Parse] fails with [InvalidInput] exactly when its loop takes
    every byte of the input for white space, the empty input included. A
    byte below 128 is judged as the rune of that value; a byte from 128 on
    is judged by the rune decoded at the start of the input. No other
    failure of [Parse] bears that error. *)
Theorem Parse_InvalidInput_iff (src : bytes) :
  Parse src = Err InvalidInput
  <-> Forall (fun b => unicode_IsSpace
                         (if Z.of_N (Byte.to_N b) >=? 128
                          then utf8_DecodeRune src
                          else Z.of_N (Byte.to_N b)) = true) src.
Proof.
  rewrite <- (firstRuneFrom_None src src). rewrite Parse_firstRune.
  unfold firstRune. destruct (firstRuneFrom src src) as [r|].
  - split; [|discriminate]. intros Hp. exfalso.
    destruct (r =? 123).
    + unfold parseJSON in Hp.
      destruct (json_UnmarshalMessage src); discriminate.
    + exact (parseCompact_not_InvalidInput _ Hp).
  - split; reflexivity.
Qed.

Lemma firstRuneFrom_ascii (src rest : bytes) :
  unicode_IsSpace (utf8_DecodeRune src) = true ->
  firstRuneFrom src rest
  = (fun b => Z.of_N (Byte.to_N b))
      <$> head (filter (fun b => Is_true
                                   ((Z.of_N (Byte.to_N b) <? 128)
                                    && negb (unicode_IsSpace
                                               (Z.of_N (Byte.to_N b)))))
                       rest).
Proof.
  intros Hsp. induction rest as [|b rest IH]; [reflexivity|].
  simpl firstRuneFrom. rewrite filter_cons.
  destruct (decide _) as [Ht|Hf].
  - apply andb_prop_elim in Ht as [H1 H2].
    apply Is_true_true in H1. apply Is_true_true in H2.
    apply Z.ltb_lt in H1.
    destruct (Z.geb_spec (Z.of_N (Byte.to_N b)) 128); [lia|].
    rewrite H2. reflexivity.
  - destruct (Z.geb_spec (Z.of_N (Byte.to_N b)) 128) as [Hge|Hlt].
    + rewrite Hsp. exact IH.
    + destruct (unicode_IsSpace (Z.of_N (Byte.to_N b))) eqn:Hb;
        [exact IH|].
      exfalso. apply Hf. apply andb_prop_intro. split.
      * apply Is_true_true, Z.ltb_lt. lia.
      * exact I.
Qed.

(** X16. When the input starts with a rune that is white space, the loop
    of [Parse] passes over every byte from 128 on, wherever it stands: the
    form is chosen by the first byte below 128 that is not white space, an
    opening brace for JSON and anything else for compact, and the parser
    chosen receives the whole input. *)
Theorem Parse_skips_high_bytes (src : bytes) :
  unicode_IsSpace (utf8_DecodeRune src) = true ->
  Parse src
  = match head (filter (fun b => Is_true
                                   ((Z.of_N (Byte.to_N b) <? 128)
                                    && negb (unicode_IsSpace
                                               (Z.of_N (Byte.to_N b)))))
                       src) with
    | None => Err InvalidInput
    | Some b => if Z.of_N (Byte.to_N b) =? 123 then parseJSON src
                else parseCompact src
    end.
Proof.
  intros Hsp. rewrite Parse_firstRune. unfold firstRune.
  rewrite (firstRuneFrom_ascii _ _ Hsp).
  destruct (head _); reflexivity.
Qed.

(** X17. Verification and parsing agree on a compact message: when
    [verifyCompact] succeeds without a detached payload on a message whose
    decoded protected header leaves field b64 at true, the message it hands
    to the sink is the message [parseCompact] returns for the same input,
    and the payload of that message is the payload returned. *)
Theorem verifyCompact_sink_is_parse (signed : bytes) (alg : string)
        (key : Key) (m0 m : Message) (d : bytes)
        (p pl sg dp : bytes) (hdr : Headers) :
  SplitCompact signed = Ok (p, pl, sg) ->
  base64_Decode p = Some dp ->
  json_UnmarshalHeaders dp = Some hdr ->
  getB64Value hdr = true ->
  verifyCompact signed alg key (Some m0) None = (Ok d, Some m) ->
  parseCompact signed = Ok m /\ msg_payload m = d.
Proof.
  intros Hs Hdp Hh Hb Hv. unfold verifyCompact in Hv.
  destruct (verifyCompactCore signed alg key None) as [[d' m']|e] eqn:Hc;
    [|discriminate].
  simpl in Hv. injection Hv as -> ->.
  destruct (verifyCompactCore_Ok_inv _ _ _ _ _ _ Hc)
    as (p' & pl' & sg' & v & ds & dp' & hdr' & Hs' & _ & Hds & Hdp' & Hh'
        & _ & _ & Hd & ->).
  rewrite Hs in Hs'. injection Hs' as <- <- <-.
  rewrite Hdp in Hdp'. injection Hdp' as <-.
  rewrite Hh in Hh'. injection Hh' as <-.
  rewrite Hb in Hd. simpl in Hd.
  split; [|reflexivity].
  unfold parseCompact, parse. rewrite Hs, bind_Ok, Hdp. simpl orErr.
  rewrite bind_Ok, Hh. simpl orErr. rewrite bind_Ok, Hd. simpl orErr.
  rewrite bind_Ok, Hds. reflexivity.
Qed.

(** X18. What [parseCompactReader] parses from a reader [parseCompact]
    parses from the content of the reader, to the same message: the
    streaming parser accepts nothing the eager one refuses. *)
Theorem parseCompactReader_Ok_eager (rdr : Reader) (buf : bytes)
        (m : Message) :
  content rdr = Some buf ->
  parseCompactReader rdr = Ok m ->
  parseCompact buf = Ok m.
Proof.
  intros Hc Hp. unfold parseCompactReader in Hp. unfold parseCompact.
  destruct (SplitCompactReader rdr) as [t|e] eqn:Hs; [|discriminate].
  rewrite (SplitCompactReader_Ok_eager _ _ _ Hc Hs). exact Hp.
Qed.

Lemma verifyCompactCore_errors (signed : bytes) (alg : string) (key : Key)
      (detached : option bytes) (e : Error) :
  verifyCompactCore signed alg key detached = Err e ->
  e ∈ [MalformedSegments; UnsupportedAlgorithm; SignatureDecodeFailed;
       HeaderDecodeFailed; KeyIDMismatch; VerificationFailed;
       PayloadDecodeFailed].
Proof.
  intros Hc.
  destruct (SplitCompact signed) as [[[p pl] sg]|e0] eqn:Hs.
  2:{ unfold verifyCompactCore in Hc. rewrite Hs in Hc.
      unfold SplitCompact in Hs.
      destruct (len (Split signed dot) <? 3); [|discriminate].
      injection Hs as <-. injection Hc as <-. set_solver. }
  destruct (NewVerifier alg) as [v|] eqn:Hv;
    [|unfold verifyCompactCore in Hc; rewrite Hs, bind_Ok, Hv in Hc;
      injection Hc as <-; set_solver].
  destruct (base64_Decode sg) as [ds|] eqn:Hds;
    [|unfold verifyCompactCore in Hc; rewrite Hs, bind_Ok, Hv in Hc;
      simpl orErr in Hc; rewrite bind_Ok, Hds in Hc;
      injection Hc as <-; set_solver].
  destruct (base64_Decode p) as [dp|] eqn:Hdp;
    [|unfold verifyCompactCore in Hc; rewrite Hs, bind_Ok, Hv in Hc;
      simpl orErr in Hc; rewrite bind_Ok, Hds in Hc;
      simpl orErr in Hc; rewrite bind_Ok, Hdp in Hc;
      injection Hc as <-; set_solver].
  destruct (json_UnmarshalHeaders dp) as [hdr|] eqn:Hh;
    [|unfold verifyCompactCore in Hc; rewrite Hs, bind_Ok, Hv in Hc;
      simpl orErr in Hc; rewrite bind_Ok, Hds in Hc;
      simpl orErr in Hc; rewrite bind_Ok, Hdp in Hc;
      simpl orErr in Hc; rewrite bind_Ok, Hh in Hc;
      injection Hc as <-; set_solver].
  rewrite (verifyCompactCore_decoded _ _ _ _ _ _ _ _ _ _ _ Hs Hv Hds Hdp Hh)
    in Hc.
  destruct (kidMismatch hdr key); [injection Hc as <-; set_solver|].
  destruct (v _ ds key); [|injection Hc as <-; set_solver].
  destruct (getB64Value hdr); [|discriminate].
  destruct (base64_Decode (effectivePayload pl detached));
    [discriminate|injection Hc as <-; set_solver].
Qed.

Lemma verifyJSONCore_errors (signed : bytes) (alg : string) (key : Key)
      (detached : option bytes) (e : Error) :
  verifyJSONCore signed alg key detached = Err e ->
  e ∈ [UnsupportedAlgorithm; UnmarshalFailed; AmbiguousPayload;
       MarshalProtectedFailed; NoValidSignature].
Proof.
  unfold verifyJSONCore. intros Hc.
  destruct (NewVerifier alg) as [v|]; [|injection Hc as <-; set_solver].
  simpl orErr in Hc. rewrite bind_Ok in Hc.
  destruct (json_UnmarshalMessage signed) as [m|];
    [|injection Hc as <-; set_solver].
  simpl orErr in Hc. rewrite bind_Ok in Hc.
  destruct (negb _ && _); [injection Hc as <-; set_solver|].
  apply verifySignatures_Err_inv in Hc as [->| ->]; set_solver.
Qed.

(** X25. The errors of [Verify]. It fails with [EmptyInput] exactly when
    nothing is left of the buffer after trimming, whatever the algorithm
    and the key. Every other failure is one of five errors when the
    trimmed buffer starts with an opening brace, and one of seven others
    when it does not. *)
Theorem Verify_errors (buf : bytes) (alg : string) (key : Key)
        (dst : option Message) (detached : option bytes) :
  (fst (Verify buf alg key dst detached) = Err EmptyInput
   <-> bytes_TrimSpace buf = [])
  /\ (forall e,
         fst (Verify buf alg key dst detached) = Err e ->
         bytes_TrimSpace buf <> [] ->
         if bool_decide (head (bytes_TrimSpace buf) = Some lbrace)
         then e ∈ [UnsupportedAlgorithm; UnmarshalFailed; AmbiguousPayload;
                   MarshalProtectedFailed; NoValidSignature]
         else e ∈ [MalformedSegments; UnsupportedAlgorithm;
                   SignatureDecodeFailed; HeaderDecodeFailed; KeyIDMismatch;
                   VerificationFailed; PayloadDecodeFailed]).
Proof.
  rewrite Verify_cases. unfold len.
  destruct (bytes_TrimSpace buf) as [|c r] eqn:Ht.
  - simpl. split; [split; reflexivity|]. intros e _ Hne. congruence.
  - destruct (Z.eqb_spec (Z.of_nat (length (c :: r))) 0) as [Hz|_];
      [simpl in Hz; lia|].
    destruct (bool_decide (head (c :: r) = Some lbrace)).
    + destruct (verifyJSONCore (c :: r) alg key detached) as [[d m]|e0] eqn:Hj;
        simpl.
      * split; [split; discriminate|discriminate].
      * pose proof (verifyJSONCore_errors _ _ _ _ _ Hj) as He.
        split.
        -- split; [|discriminate]. intros [= ->]. exfalso.
           rewrite !elem_of_cons, elem_of_nil in He.
           intuition discriminate.
        -- intros e [= <-] _. exact He.
    + destruct (verifyCompactCore (c :: r) alg key detached)
        as [[d m]|e0] eqn:Hv; simpl.
      * split; [split; discriminate|discriminate].
      * pose proof (verifyCompactCore_errors _ _ _ _ _ Hv) as He.
        split.
        -- split; [|discriminate]. intros [= ->]. exfalso.
           rewrite !elem_of_cons, elem_of_nil in He.
           intuition discriminate.
        -- intros e [= <-] _. exact He.
Qed.

End WithCollaborators.
End JwsExtra.

(** ** More facts about the registry *)

Module RegistryExtra.
Import Jws RegistryFacts.

Lemma addAll_lookup_aux (kty : string) (algs : list string) :
  forall m : gmap string (list string),
    algs <> [] ->
    addAll kty algs m !! kty = Some (default [] (m !! kty) ++ algs).
Proof.
  unfold addAll.
  induction algs as [|alg algs IH]; intros m Hne; [congruence|].
  simpl fold_left. destruct algs as [|alg' algs'].
  - simpl. unfold addAlgorithmForKeyType. apply lookup_insert_eq.
  - rewrite IH by discriminate.
    unfold addAlgorithmForKeyType at 1. rewrite lookup_insert_eq.
    simpl. rewrite <- app_assoc. reflexivity.
Qed.

Lemma addAll_lookup_other (kty kty' : string) (algs : list string) :
  kty' <> kty ->
  forall m : gmap string (list string),
    addAll kty algs m !! kty' = m !! kty'.
Proof.
  intros Hne. unfold addAll.
  induction algs as [|alg algs IH]; intros m; [reflexivity|].
  simpl fold_left. rewrite IH. unfold addAlgorithmForKeyType.
  apply lookup_insert_ne. congruence.
Qed.

(** X19. Registering algorithms for a key type appends them, in the order
    given, to the algorithms the key type already has, and leaves the
    algorithms of every other key type as they were. *)
Theorem addAlgorithms_appends (kty : string) (algs : list string)
        (m : gmap string (list string)) :
  algs <> [] ->
  addAll kty algs m !! kty = Some (default [] (m !! kty) ++ algs)
  /\ forall kty', kty' <> kty -> addAll kty algs m !! kty' = m !! kty'.
Proof.
  intros Hne. split; [apply addAll_lookup_aux, Hne|].
  intros kty' Hk. apply addAll_lookup_other, Hk.
Qed.

(** X20. The lists [AlgorithmsForKey] returns are not empty, name no
    algorithm twice, and do not overlap between key types: an algorithm
    offered for two keys means the two keys have the same key type. *)
Theorem AlgorithmsForKey_partition (k1 k2 : Key) (a1 a2 : list string) :
  AlgorithmsForKey k1 = Ok a1 ->
  AlgorithmsForKey k2 = Ok a2 ->
  a1 <> [] /\ NoDup a1
  /\ forall alg, alg ∈ a1 -> alg ∈ a2 -> keyTypeOf k1 = keyTypeOf k2.
Proof.
  unfold AlgorithmsForKey.
  destruct (keyTypeOf k1) as [t1|]; [|discriminate].
  destruct (keyTypeOf k2) as [t2|]; [|discriminate].
  rewrite !keyTypeToAlgorithms_lookup.
  intros H1 H2.
  repeat case_decide; simplify_eq;
    (split; [discriminate|]);
    (split; [apply (bool_decide_unpack (NoDup _)); vm_compute; reflexivity|]);
    intros alg Ha Hb; try reflexivity; exfalso;
    apply list_elem_of_In in Ha; apply list_elem_of_In in Hb;
    simpl in Ha, Hb; intuition (subst; discriminate).
Qed.

End RegistryExtra.

(** ** Facts about signing *)

Module SignFacts.
Import Split Jws Sign.

Section WithSignCollaborators.
Context `{SignCollaborators}.

Lemma headersOption_Panics (options : list Option) :
  forall hdrs, headersOption options hdrs = Panics
               <-> identHeaders None ∈ options.
Proof.
  induction options as [|o rest IH]; intros hdrs; simpl.
  - split; [discriminate|]. intros Hin. apply elem_of_nil in Hin.
    contradiction.
  - rewrite elem_of_cons. destruct o as [ps|[l|]|m]; rewrite ?IH.
    + split; [tauto|]. intros [?|?]; [discriminate|assumption].
    + split; [tauto|]. intros [?|?]; [discriminate|assumption].
    + split; [left; reflexivity|reflexivity].
    + split; [tauto|]. intros [?|?]; [discriminate|assumption].
Qed.

(** X21. [Sign] and the signer cache. The call panics exactly when one of
    its options is a headers option with a nil value. When it returns, it
    has not removed or replaced a cached signer and has touched no entry
    but that of its algorithm. It returns [CreateSignerFailed] exactly when
    the algorithm is not cached and [NewSigner] refuses it, and then the
    cache and the header objects are as before. With every other result,
    also when signing itself fails, the algorithm is cached afterwards. *)
Theorem Sign_cache (payload : bytes) (alg : string) (key : Key)
        (options : list Option) (w : World) :
  (Sign payload alg key options w = Panics
   <-> identHeaders None ∈ options)
  /\ forall (r : SignResult bytes) (w' : World),
      Sign payload alg key options w = Returns (r, w') ->
      (forall a s, signers w !! a = Some s -> signers w' !! a = Some s)
      /\ (forall a, a <> alg -> signers w' !! a = signers w !! a)
      /\ (r = SErr CreateSignerFailed
          <-> signers w !! alg = None /\ NewSigner alg = None)
      /\ (r = SErr CreateSignerFailed -> w' = w)
      /\ (r <> SErr CreateSignerFailed -> is_Some (signers w' !! alg)).
Proof.
  split.
  - rewrite <- (headersOption_Panics options None). unfold Sign.
    destruct (headersOption options None) as [hdrs|]; [|tauto].
    split; [|discriminate].
    destruct (signers w !! alg) as [s0|].
    + destruct (signature_Sign _ _ payload s0 key) as [h' [[sig' out]|]];
        discriminate.
    + destruct (NewSigner alg) as [v|]; [|discriminate].
      destruct (signature_Sign _ _ payload v key) as [h' [[sig' out]|]];
        discriminate.
  - intros r w'. unfold Sign.
    destruct (headersOption options None) as [hdrs|]; [|discriminate].
    destruct (signers w !! alg) as [s0|] eqn:Hc.
    + destruct (signature_Sign _ _ payload s0 key) as [h' [[sig' out]|]];
        intros [= <- <-]; simpl;
        (repeat split; try discriminate; try congruence; eauto);
        intros [? ?]; discriminate.
    + destruct (NewSigner alg) as [v|] eqn:Hn.
      * destruct (signature_Sign _ _ payload v key) as [h' [[sig' out]|]];
          intros [= <- <-]; simpl;
          (repeat split; try discriminate; try congruence);
          try (intros a s Ha; rewrite lookup_insert_ne by congruence;
               exact Ha);
          try (intros a Ha; apply lookup_insert_ne; congruence);
          try (intros [_ ?]; discriminate);
          try (rewrite lookup_insert_eq; eauto).
      * intros [= <- <-]. repeat split; try congruence; eauto.
Qed.

(** X22. When a call of [Sign] for an algorithm has returned, a second
    call for the same algorithm that returns, whatever its payload, key and
    options, leaves the signer cache as the first call left it. *)
Theorem Sign_cache_stable (p1 p2 : bytes) (alg : string) (k1 k2 : Key)
        (o1 o2 : list Option) (w w1 w2 : World)
        (r1 r2 : SignResult bytes) :
  Sign p1 alg k1 o1 w = Returns (r1, w1) ->
  Sign p2 alg k2 o2 w1 = Returns (r2, w2) ->
  signers w2 = signers w1.
Proof.
  assert (Hhit : forall (s : Signer),
             signers w1 !! alg = Some s ->
             Sign p2 alg k2 o2 w1 = Returns (r2, w2) ->
             signers w2 = signers w1).
  { intros s Hs. unfold Sign.
    destruct (headersOption o2 None) as [hdrs|]; [|discriminate].
    rewrite Hs.
    destruct (signature_Sign _ _ p2 s k2) as [h' [[sig' out]|]];
      intros [= <- <-]; reflexivity. }
  assert (Hmiss : signers w1 !! alg = None -> NewSigner alg = None ->
                  Sign p2 alg k2 o2 w1 = Returns (r2, w2) ->
                  signers w2 = signers w1).
  { intros Hs Hn. unfold Sign.
    destruct (headersOption o2 None) as [hdrs|]; [|discriminate].
    rewrite Hs, Hn. intros [= <- <-]. reflexivity. }
  unfold Sign at 1.
  destruct (headersOption o1 None) as [hdrs|]; [|discriminate].
  destruct (signers w !! alg) as [s0|] eqn:Hc.
  - destruct (signature_Sign _ _ p1 s0 k1) as [h' [[sig' out]|]];
      intros [= <- <-]; apply (Hhit s0); exact Hc.
  - destruct (NewSigner alg) as [v|] eqn:Hn.
    + destruct (signature_Sign _ _ p1 v k1) as [h' [[sig' out]|]];
        intros [= <- <-]; apply (Hhit v); simpl; apply lookup_insert_eq.
    + intros [= <- <-]. apply Hmiss; [exact Hc|reflexivity].
Qed.

Lemma signEach_outcome (payload : bytes) (todo : list payloadSigner) :
  forall (i : nat) (h : Heap) (sigs : list SignatureObj),
    match fst (signEach payload i todo h sigs) with
    | SOk sigs' => length sigs' = (length sigs + length todo)%nat
    | SErr (SignerFailed j alg) =>
        (i <= j)%nat
        /\ exists signer, todo !! (j - i)%nat = Some signer
                          /\ payloadSigner_Algorithm signer = alg
    | SErr e => e = SetHeaderFailed
    end.
Proof.
  induction todo as [|signer rest IH]; intros i h sigs; simpl.
  - lia.
  - destruct (match ProtectedHeader signer with
              | Some l => (l, h)
              | None => NewHeaders h
              end) as [l h1].
    destruct (headers_Set _ _ _) as [hdr|]; [|reflexivity].
    destruct (signature_Sign _ _ payload _ _) as [h2 [[sig out]|]]; simpl.
    + specialize (IH (S i) h2 (sigs ++ [sig])).
      destruct (fst (signEach payload (S i) rest h2 (sigs ++ [sig])))
        as [sigs'|[| | | |j alg|]]; try assumption.
      * rewrite length_app in IH. simpl in IH. lia.
      * destruct IH as (Hle & s & Hs & Ha). split; [lia|].
        exists s. split; [|exact Ha].
        replace (j - i)%nat with (S (j - S i)) by lia. exact Hs.
    + split; [lia|]. exists signer.
      rewrite Nat.sub_diag. split; reflexivity.
Qed.

Lemma signersOf_nil (options : list Option) :
  signersOf options = []
  <-> forall value, identPayloadSigner value ∉ options.
Proof.
  unfold signersOf. induction options as [|o rest IH]; simpl.
  - split; [intros _ v; apply not_elem_of_nil|reflexivity].
  - destruct o as [ps|hd|m]; simpl.
    + split; [discriminate|]. intros Hn. exfalso.
      apply (Hn ps). apply elem_of_cons. left. reflexivity.
    + rewrite IH. split; intros Hn v.
      * rewrite elem_of_cons. intros [?|?]; [discriminate|].
        exact (Hn v ltac:(assumption)).
      * intros Hin. apply (Hn v). apply elem_of_cons. right. exact Hin.
    + rewrite IH. split; intros Hn v.
      * rewrite elem_of_cons. intros [?|?]; [discriminate|].
        exact (Hn v ltac:(assumption)).
      * intros Hin. apply (Hn v). apply elem_of_cons. right. exact Hin.
Qed.

(** X23. [SignMulti] fails with [NoSignersProvided] exactly when none of
    its options is a signer configuration, whatever other options it is
    given; no header object is touched then. *)
Theorem SignMulti_no_signers (payload : bytes) (options : list Option)
        (h : Heap) :
  (fst (SignMulti payload options h) = SErr NoSignersProvided
   <-> forall value, identPayloadSigner value ∉ options)
  /\ ((forall value, identPayloadSigner value ∉ options) ->
      snd (SignMulti payload options h) = h).
Proof.
  rewrite <- signersOf_nil. unfold SignMulti, len.
  destruct (signersOf options) as [|s rest] eqn:Hs.
  - simpl. repeat split.
  - destruct (Z.eqb_spec (Z.of_nat (length (s :: rest))) 0) as [Hz|_];
      [simpl in Hz; lia|].
    split; [|discriminate]. split; [|discriminate].
    pose proof (signEach_outcome payload (s :: rest) 0 h []) as Ho.
    destruct (signEach payload 0 (s :: rest) h []) as [[sigs|e] h'];
      simpl in Ho |- *.
    + destruct (json_MarshalMessage h' payload sigs); discriminate.
    + intros [= ->]. discriminate.
Qed.





End WithSignCollaborators.
End SignFacts.

(** ** The further theorems at concrete inputs *)

Module ExtraChecks.
Import Split SplitFacts SplitString SplitExtra.
Import Jws JwsFacts JwsExtra RegistryFacts RegistryExtra.
Import Sign SignFacts Ref RefSign Examples Examples2.

(** One byte per read against everything in one read that also reports
    end of input, on a buffer with three separators. *)
Lemma SplitCompactReader_chunking_witness :
  SplitCompactReader (reader_over 1 (B "a.b.c.d"))
  = SplitCompactReader (Stream [(B "a.b.c.d", Some EOF)]).
Proof.
  apply (SplitCompactReader_chunking _ _ (B "a.b.c.d")).
  - apply (content_reader_over 1 (B "a.b.c.d")). lia.
  - reflexivity.
Defined.

Lemma verifyCompact_sound_witness :
  exists p pl sg v ds dp hdr,
    SplitCompact hello = Ok (p, pl, sg)
    /\ NewVerifier "HS256" = Some v
    /\ base64_Decode sg = Some ds
    /\ base64_Decode p = Some dp
    /\ json_UnmarshalHeaders dp = Some hdr
    /\ kidMismatch hdr key_k1 = false
    /\ v (p ++ dot :: effectivePayload pl None) ds key_k1 = true
    /\ (if getB64Value hdr
        then base64_Decode (effectivePayload pl None) = Some (B "hello")
        else B "hello" = effectivePayload pl None).
Proof.
  apply (verifyCompact_sound hello "HS256" key_k1 None None (B "hello")).
  vm_compute. reflexivity.
Defined.

(** [hello] followed by a separator and more. *)
Lemma compact_trailing_segments_unseen_witness :
  verifyCompact (hello ++ dot :: B "more.and.more") "HS256" key_k1 None None
  = verifyCompact hello "HS256" key_k1 None None
  /\ parseCompact (hello ++ dot :: B "more.and.more") = parseCompact hello.
Proof.
  eapply (compact_trailing_segments_unseen hello (B "more.and.more")).
  vm_compute. reflexivity.
Defined.

Lemma verifyJSON_sound_witness :
  exists v m sig pj,
    NewVerifier "HS256" = Some v
    /\ json_UnmarshalMessage helloJSON = Some m
    /\ (@None bytes = None \/ msg_payload m = [])
    /\ B "hello" = msg_payload m
    /\ sig ∈ msg_signatures m
    /\ json_MarshalHeaders (sig_protected sig) = Some pj
    /\ v (base64_EncodeToString pj ++ dot :: (if msg_b64 m then base64_EncodeToString (B "hello")
                               else B "hello"))
         (sig_signature sig) key_k1 = true.
Proof.
  apply (verifyJSON_sound helloJSON "HS256" key_k1 None None (B "hello")).
  vm_compute. reflexivity.
Defined.

(** A failed call, for the key ids, and a successful one, each with a
    sink. *)
Lemma Verify_sink_witness :
  snd (Verify withKid "HS256" key_k2 (Some zeroMessage) None) = Some zeroMessage
  /\ exists m, snd (Verify hello "HS256" key_k1 (Some zeroMessage) None) = Some m
               /\ msg_payload m = B "hello".
Proof.
  split.
  - apply (proj1 (Verify_sink withKid "HS256" key_k2 (Some zeroMessage) None)
                 KeyIDMismatch).
    vm_compute. reflexivity.
  - apply (proj2 (Verify_sink hello "HS256" key_k1 (Some zeroMessage) None)
                 (B "hello")).
    vm_compute. reflexivity.
Defined.

Lemma Verify_KeyIDMismatch_only_if_witness :
  head (bytes_TrimSpace withKid) <> Some lbrace
  /\ exists k p pl sg dp hdr,
      key_k2 = JwkK k
      /\ SplitCompact (bytes_TrimSpace withKid) = Ok (p, pl, sg)
      /\ base64_Decode p = Some dp
      /\ json_UnmarshalHeaders dp = Some hdr
      /\ KeyID hdr <> ""%string
      /\ jwk_KeyID k <> KeyID hdr.
Proof.
  apply (Verify_KeyIDMismatch_only_if withKid "HS256" key_k2 None None).
  vm_compute. reflexivity.
Defined.

(** The unprotected header of [helloJSONkid] names key id k1; with key k2
    its one signature is passed over, although the signature is the one
    that key k1, of the same material, verifies. *)
Lemma verifyJSON_kid_mismatch_skips_witness :
  @verifyJSON RefHeader.env helloJSONkid "HS256" key_k2 None None
  = (Err NoValidSignature, None)
  /\ fst (@verifyJSON RefHeader.env helloJSONkid "HS256" key_k1 None None)
     = Ok (B "hello").
Proof.
  split; [|vm_compute; reflexivity].
  eapply (@verifyJSON_kid_mismatch_skips RefHeader.env helloJSONkid "HS256"
            (octKey "k2" "HS256" "sig" (B "secret")) None None
            checksumVerifier).
  - reflexivity.
  - vm_compute. reflexivity.
  - left. reflexivity.
  - vm_compute. repeat constructor.
    eexists. split; [reflexivity|]. split; vm_compute; discriminate.
Defined.

Lemma VerifySet_outcome_witness :
  exists j key,
    (j < Len encThenSig)%nat /\ KeyAt encThenSig j = Some key
    /\ eligible key = true
    /\ fst (Verify hello (jwk_Algorithm key) (JwkK key) None None)
       = Ok (B "hello")
    /\ forall j' key',
        (j' < j)%nat -> KeyAt encThenSig j' = Some key' ->
        eligible key' = true ->
        is_ok (fst (Verify hello (jwk_Algorithm key') (JwkK key')
                           None None)) = false.
Proof.
  apply (proj1 (VerifySet_outcome hello encThenSig) (B "hello")).
  vm_compute. reflexivity.
Defined.

(** The header of [withKid] asks for key id k1; the collection holds key
    k2, of the same material, before key k1. *)
Lemma VerifySet_kid_witness :
  exists j key,
    (j < Len k2ThenK1)%nat /\ KeyAt k2ThenK1 j = Some key
    /\ eligible key = true
    /\ jwk_KeyID key = "k1"%string
    /\ fst (Verify withKid (jwk_Algorithm key) (JwkK key) None None)
       = Ok (B "hello").
Proof.
  edestruct (VerifySet_kid
               withKid withKid (B "eyJhbGciOiJIUzI1NiIsImtpZCI6ImsxIn0")
               (B "aGVsbG8") (B "UA")
               (default [] (decode (B "eyJhbGciOiJIUzI1NiIsImtpZCI6ImsxIn0")))
                           {[ "alg"%string := VString "HS256";
                              "kid"%string := VString "k1" ]}
                           k2ThenK1 (B "hello"))
    as (j & key & Hj & Hkey & He & Hkid & Hv).
  - vm_compute. reflexivity.
  - vm_compute. reflexivity.
  - vm_compute. discriminate.
  - vm_compute. reflexivity.
  - vm_compute. reflexivity.
  - vm_compute. reflexivity.
  - vm_compute. discriminate.
  - exists j, key. repeat split; assumption.
Defined.

(** The input starts with a space, so the two bytes from 128 on that
    follow are passed over and the letter after them decides. *)
Lemma Parse_skips_high_bytes_witness :
  Parse spaceHighHello = parseCompact spaceHighHello.
Proof.
  etransitivity.
  - apply (Parse_skips_high_bytes spaceHighHello). vm_compute. reflexivity.
  - vm_compute. reflexivity.
Defined.

Lemma verifyCompact_sink_is_parse_witness :
  exists m, parseCompact hello = Ok m /\ msg_payload m = B "hello".
Proof.
  eexists.
  eapply (verifyCompact_sink_is_parse hello "HS256" key_k1 zeroMessage).
  - vm_compute. reflexivity.
  - vm_compute. reflexivity.
  - vm_compute. reflexivity.
  - vm_compute. reflexivity.
  - vm_compute. reflexivity.
Defined.

Lemma parseCompactReader_Ok_eager_witness :
  exists m, parseCompactReader (reader_over 2 hello) = Ok m
            /\ parseCompact hello = Ok m.
Proof.
  eexists. split; [vm_compute; reflexivity|].
  eapply (parseCompactReader_Ok_eager (reader_over 2 hello) hello).
  - apply content_reader_over. lia.
  - vm_compute. reflexivity.
Defined.

(** One more algorithm for RSA keys in the registry of the package. *)
Lemma addAlgorithms_appends_witness :
  addAll RSA ["RS1"%string] keyTypeToAlgorithms !! RSA
  = Some [PS256; PS384; PS512; RS256; RS384; RS512; "RS1"%string]
  /\ addAll RSA ["RS1"%string] keyTypeToAlgorithms !! EC
     = Some [ES256; ES384; ES512].
Proof.
  destruct (addAlgorithms_appends RSA ["RS1"%string] keyTypeToAlgorithms)
    as [Hsame Hother]; [discriminate|].
  split.
  - etransitivity; [exact Hsame|]. vm_compute. reflexivity.
  - etransitivity; [apply Hother; discriminate|]. vm_compute. reflexivity.
Defined.

(** A raw RSA key and a structured key of type RSA. *)
Lemma AlgorithmsForKey_partition_witness :
  keyTypeOf (RawK RsaPublicKey [])
  = keyTypeOf (JwkK {| jwk_KeyID := ""; jwk_Algorithm := "";
                       jwk_KeyUsage := ""; jwk_KeyType := RSA;
                       jwk_material := [] |}).
Proof.
  eapply (proj2 (proj2 (AlgorithmsForKey_partition
                          (RawK RsaPublicKey [])
                          (JwkK {| jwk_KeyID := ""; jwk_Algorithm := "";
                                   jwk_KeyUsage := ""; jwk_KeyType := RSA;
                                   jwk_material := [] |})
                          _ _ eq_refl eq_refl)) PS256).
  - apply elem_of_cons. left. reflexivity.
  - apply elem_of_cons. left. reflexivity.
Defined.

(** A headers option with a nil value; a first signature with HS256 on an
    empty cache; an algorithm [NewSigner] does not know. *)
Lemma Sign_cache_witness :
  Sign (B "hello") "HS256" key_raw [WithHeaders None] world0 = Panics
  /\ (exists r w',
         Sign (B "hello") "HS256" key_raw [] world0 = Returns (r, w')
         /\ is_Some (signers w' !! "HS256"%string))
  /\ (exists w',
         Sign (B "hello") "none" key_raw [] world0
         = Returns (SErr CreateSignerFailed, w')
         /\ w' = world0).
Proof.
  split; [|split].
  - apply (proj2 (proj1 (Sign_cache (B "hello") "HS256" key_raw
                                    [WithHeaders None] world0))).
    apply elem_of_cons. left. reflexivity.
  - eexists _, _. split; [vm_compute; reflexivity|].
    pose proof (proj2 (Sign_cache (B "hello") "HS256" key_raw [] world0))
      as W.
    apply (proj2 (proj2 (proj2 (proj2
             (W _ _ ltac:(vm_compute; reflexivity)))))).
    discriminate.
  - eexists. split; [vm_compute; reflexivity|].
    pose proof (proj2 (Sign_cache (B "hello") "none" key_raw [] world0))
      as W.
    apply (proj1 (proj2 (proj2 (proj2
             (W _ _ ltac:(vm_compute; reflexivity)))))).
    reflexivity.
Defined.

(** Two signatures with HS256, one after the other. *)
Lemma Sign_cache_stable_witness :
  exists r1 w1 r2 w2,
    Sign (B "hello") "HS256" key_raw [] world0 = Returns (r1, w1)
    /\ Sign (B "world") "HS256" key_raw [] w1 = Returns (r2, w2)
    /\ signers w2 = signers w1.
Proof.
  eexists _, _, _, _.
  split; [vm_compute; reflexivity|]. split; [vm_compute; reflexivity|].
  eapply (Sign_cache_stable (B "hello") (B "world") "HS256" key_raw key_raw
                            [] [] world0);
    vm_compute; reflexivity.
Defined.

(** Options that are no signer configurations. *)
Lemma SignMulti_no_signers_witness :
  fst (SignMulti (B "hello") [WithHeaders None; WithMessage 0%nat] ∅)
  = SErr NoSignersProvided.
Proof.
  apply (proj1 (SignMulti_no_signers
                  (B "hello") [WithHeaders None; WithMessage 0%nat] ∅)).
  intros value Hin. apply list_elem_of_In in Hin. simpl in Hin.
  intuition discriminate.
Defined.


Lemma Verify_errors_witness :
  KeyIDMismatch ∈ [MalformedSegments; UnsupportedAlgorithm;
                   SignatureDecodeFailed; HeaderDecodeFailed; KeyIDMismatch;
                   VerificationFailed; PayloadDecodeFailed].
Proof.
  pose proof (proj2 (Verify_errors withKid "HS256" key_k2 None None)
                    KeyIDMismatch) as W.
  exact (W ltac:(vm_compute; reflexivity) ltac:(vm_compute; discriminate)).
Defined.

(** Three clean segments, then the same followed by a separator and
    more. *)
Lemma SplitCompact_Ok_shape_witness :
  SplitCompact (B "ab.cd.ef") = Ok (B "ab", B "cd", B "ef")
  /\ SplitCompact (B "ab.cd.ef.gh.ij") = Ok (B "ab", B "cd", B "ef").
Proof.
  split.
  - apply (proj2 (SplitCompact_Ok_shape (B "ab.cd.ef") (B "ab") (B "cd")
                                        (B "ef"))).
    repeat split;
      try (apply (bool_decide_unpack (dot ∉ _)); vm_compute; reflexivity).
    left. reflexivity.
  - apply (proj2 (SplitCompact_Ok_shape (B "ab.cd.ef.gh.ij") (B "ab")
                                        (B "cd") (B "ef"))).
    repeat split;
      try (apply (bool_decide_unpack (dot ∉ _)); vm_compute; reflexivity).
    right. exists (B "gh.ij"). reflexivity.
Defined.

(** A read fails after three complete segments have been read. *)
Lemma SplitCompactReader_read_error_witness :
  SplitCompactReader (Stream [(B "a.b.c.", None); ([], Some ErrOther)])
  = Err ReadFailed.
Proof.
  apply (proj2 (SplitCompactReader_read_error
                  [(B "a.b.c.", None); ([], Some ErrOther)])).
  reflexivity.
Defined.

(** Two reads, the second with the end of input. *)
Lemma SplitCompactReader_Ok_shape_witness :
  delivered [(B "ab.c", None); (B "d.ef", Some EOF)]
  = Some (B "ab" ++ dot :: B "cd" ++ dot :: B "ef").
Proof.
  apply (proj1 (SplitCompactReader_Ok_shape
                  [(B "ab.c", None); (B "d.ef", Some EOF)]
                  (B "ab") (B "cd") (B "ef"))).
  vm_compute. reflexivity.
Defined.

(** A space, a tab and a line feed. *)
Lemma Parse_InvalidInput_iff_witness :
  Parse [x20; x09; x0a] = Err InvalidInput.
Proof.
  apply (proj2 (Parse_InvalidInput_iff [x20; x09; x0a])).
  repeat constructor.
Defined.

(** *** Further examples *)

(** What [Sign] writes in the reference environment [Verify] accepts, and
    the payload comes back. *)
Example Sign_then_Verify :
  (exists w', Sign (B "hello") "HS256" key_raw [] world0
              = Returns (SOk hello, w'))
  /\ fst (Verify hello "HS256" key_raw None None) = Ok (B "hello").
Proof. split; [eexists|]; vm_compute; reflexivity. Qed.

(** The string splitter on the text of [hello]. *)
Example SplitCompactString_hello :
  SplitCompactString "eyJhbGciOiJIUzI1NiJ9.aGVsbG8.2Q"
  = Ok (B "eyJhbGciOiJIUzI1NiJ9", B "aGVsbG8", B "2Q").
Proof. vm_compute. reflexivity. Qed.

End ExtraChecks.
